(** * apache_logs_parser_lite: the line parser, the client classifier and
      the statistics aggregator, embedded from [generate_json.py] and
      [display_stats.py].

    Conventions of the embedding.
    - A Python [str] is a [list ascii]: a sequence of code points below 256.
      On that range [\d] is exactly [0-9], [re.IGNORECASE] only folds the
      ASCII letters, and [str.strip] removes the characters listed in
      [is_space].
    - A Python exception is an [outcome]: [Ok v] or [Raise e].
    - [logger.*] calls and [print] calls are events appended to a trace; the
      trace written before an exception stays written.
    - A [dict] is an association list in insertion order with unique keys.
    - [int] is [Z]; [float] is the kernel's binary64 [float].  [int()] of a
      string and [str()] of an [int] stop at [int_max_str_digits] digits, as
      the interpreter does from version 3.11 on. *)

From Stdlib Require Import Ascii String.
From Stdlib Require Import List ZArith Lia Bool Arith PeanoNat.
From Stdlib Require Import Sorting.Sorted Permutation.
From Stdlib Require Import Floats.
Import ListNotations.

Set Implicit Arguments.

(** ** Strings *)

Definition str := list ascii.

Definition lit (s : string) : str := list_ascii_of_string s.

Definition DQUOTE : ascii := "034"%char.
Definition NEWLINE : ascii := "010"%char.
Definition SPACE : ascii := " "%char.

Definition code (a : ascii) : nat := nat_of_ascii a.

Definition in_range (lo hi : nat) (a : ascii) : bool :=
  (lo <=? code a) && (code a <=? hi).

Definition is_digit : ascii -> bool := in_range 48 57.
Definition is_upper : ascii -> bool := in_range 65 90.

(** ASCII case folding, as [re.IGNORECASE] applies it to both the pattern
    and the subject on code points below 256. *)
Definition lower (a : ascii) : ascii :=
  if is_upper a then ascii_of_nat (code a + 32) else a.

Definition str_eqb (s t : str) : bool :=
  if list_eq_dec ascii_dec s t then true else false.

(** ** A backtracking matcher for the [re] patterns of the program

    The patterns of the source are written in this syntax, with Python's
    leftmost, greedy, first-alternative-first search order.  Captures are
    kept as a list, the latest binding of a group first. *)

Inductive re : Type :=
| Eps
| Chr (p : ascii -> bool)
| Seq (r1 r2 : re)
| Alt (r1 r2 : re)
| Star (r : re)
| Group (i : nat) (r : re)
| Bol
| Eol.

Definition caps := list (nat * str).

Fixpoint group (i : nat) (c : caps) : option str :=
  match c with
  | [] => None
  | (j, s) :: c' => if Nat.eqb i j then Some s else group i c'
  end.

Definition Plus (r : re) : re := Seq r (Star r).
Definition Opt (r : re) : re := Alt r Eps.

Fixpoint Lit (s : str) : re :=
  match s with
  | [] => Eps
  | a :: s' => Seq (Chr (Ascii.eqb a)) (Lit s')
  end.

(** A literal under [re.IGNORECASE]. *)
Fixpoint LitI (s : str) : re :=
  match s with
  | [] => Eps
  | a :: s' => Seq (Chr (fun b => Ascii.eqb (lower b) (lower a))) (LitI s')
  end.

Fixpoint Seqs (rs : list re) : re :=
  match rs with
  | [] => Eps
  | [r] => r
  | r :: rs' => Seq r (Seqs rs')
  end.

Section Matcher.
Variable R : Type.

(** One greedy iteration after another; an iteration that consumes nothing
    is not repeated.  [fuel] bounds the number of iterations by the length
    of the subject. *)
Fixpoint star_loop (body : str -> caps -> (str -> caps -> option R) -> option R)
         (k : str -> caps -> option R) (fuel : nat) (s : str) (c : caps) : option R :=
  match fuel with
  | O => k s c
  | S f =>
      match body s c (fun s1 c1 =>
                        if length s1 <? length s then star_loop body k f s1 c1 else None) with
      | Some x => Some x
      | None => k s c
      end
  end.

(** [m n r s c k]: match [r] at the suffix [s] of a subject of length [n],
    with the captures [c] so far, then continue with [k]. *)
Fixpoint m (n : nat) (r : re) (s : str) (c : caps)
         (k : str -> caps -> option R) : option R :=
  match r with
  | Eps => k s c
  | Chr p =>
      match s with
      | a :: s' => if p a then k s' c else None
      | [] => None
      end
  | Seq r1 r2 => m n r1 s c (fun s1 c1 => m n r2 s1 c1 k)
  | Alt r1 r2 =>
      match m n r1 s c k with
      | Some x => Some x
      | None => m n r2 s c k
      end
  | Star r1 => star_loop (m n r1) k (length s) s c
  | Group i r1 =>
      m n r1 s c (fun s1 c1 => k s1 ((i, firstn (length s - length s1) s) :: c1))
  | Bol => if length s =? n then k s c else None
  | Eol =>
      match s with
      | [] => k s c
      | [a] => if Ascii.eqb a NEWLINE then k s c else None
      | _ => None
      end
  end.

End Matcher.

(** [pattern.match(s)]: at the start of the subject only. *)
Definition re_match (r : re) (s : str) : option caps :=
  m (length s) r s [] (fun _ c => Some c).

(** [pattern.search(s)]: the first start position that matches. *)
Fixpoint search_from (n : nat) (r : re) (s : str) : option caps :=
  match m n r s [] (fun _ c => Some c) with
  | Some c => Some c
  | None =>
      match s with
      | [] => None
      | _ :: s' => search_from n r s'
      end
  end.

Definition re_search (r : re) (s : str) : option caps :=
  search_from (length s) r s.

(** ** Exceptions and traces *)

Inductive exn : Type :=
| ValueError
| TypeError
| OverflowError
| ZeroDivisionError.

Inductive outcome (A : Type) : Type :=
| Ok (a : A)
| Raise (e : exn).
Arguments Ok {A} a.
Arguments Raise {A} e.

(** A value handed to [print], before it is formatted: an [int] or a
    [float]. *)
Inductive num : Type :=
| I (z : Z)
| F (f : float).

(** What the two programs write: records of the [logging] module and lines
    of standard output (the numbers of a line are kept unformatted).  The
    [bar] of a [BarRow] is the number of times the bar literal of
    [Graph.display] is repeated; as the source file is saved, that literal is
    three characters long. *)
Inductive event : Type :=
| LogError (msg : str)
| LogInfo (msg : str)
| LogDebug (msg : str)
| Header (title : str)
| BarRow (label : str) (bar : nat) (value : num) (unit : str) (percent : option float)
| ListRow (rank : nat) (key : str) (value : num) (unit : str)
| TotalHits (n : nat)
| TotalTraffic (gb : float)
| DifferentVisitors (n : nat)
| DifferentURLs (n : nat).

(** A computation that writes events and returns or raises. *)
Definition M (A : Type) : Type := (list event * outcome A)%type.

Definition ret {A} (a : A) : M A := ([], Ok a).
Definition raise {A} (e : exn) : M A := ([], Raise e).
Definition emit (ev : event) : M unit := ([ev], Ok tt).
Definition lift {A} (o : outcome A) : M A := ([], o).

Definition bind {A B} (x : M A) (f : A -> M B) : M B :=
  match x with
  | (t, Ok a) => let (t', r) := f a in (t ++ t', r)
  | (t, Raise e) => (t, Raise e)
  end.

Declare Scope py_scope.
Delimit Scope py_scope with py.
Notation "x <- c1 ;; c2" := (bind c1 (fun x => c2))
  (at level 61, c1 at next level, right associativity) : py_scope.
Notation "c1 ;; c2" := (bind c1 (fun _ => c2))
  (at level 61, right associativity) : py_scope.
Local Open Scope py_scope.

(** ** Built-in functions of Python the programs call *)

(** [str.isspace] on one character. *)
Definition is_space (a : ascii) : bool :=
  in_range 9 13 a || in_range 28 32 a || (code a =? 133) || (code a =? 160).

Fixpoint lstrip (s : str) : str :=
  match s with
  | a :: s' => if is_space a then lstrip s' else s
  | [] => []
  end.

Definition rstrip (s : str) : str := rev (lstrip (rev s)).

(** [s.strip()] *)
Definition strip (s : str) : str := rstrip (lstrip s).

Definition digit_val (a : ascii) : Z := Z.of_nat (code a - 48).

(** The digits of a decimal literal, where single underscores may separate
    digits. *)
Fixpoint int_digits (acc : Z) (prev_digit : bool) (s : str) : option Z :=
  match s with
  | [] => if prev_digit then Some acc else None
  | a :: s' =>
      if is_digit a then int_digits (acc * 10 + digit_val a) true s'
      else if Ascii.eqb a "_" && prev_digit then int_digits acc false s'
      else None
  end.

(** An optional sign before the digits. *)
Definition split_sign (t : str) : Z * str :=
  match t with
  | "+"%char :: b => (1%Z, b)
  | "-"%char :: b => ((-1)%Z, b)
  | _ => (1%Z, t)
  end.

(** The whitespace [int()] skips around a literal: that of [str.isspace]
    without the four separators 28 to 31, which [int()] refuses. *)
Definition is_int_space (a : ascii) : bool :=
  in_range 9 13 a || (code a =? 32) || (code a =? 133) || (code a =? 160).

Fixpoint int_lstrip (s : str) : str :=
  match s with
  | a :: s' => if is_int_space a then int_lstrip s' else s
  | [] => []
  end.

Definition int_strip (s : str) : str := rev (int_lstrip (rev (int_lstrip s))).

(** [sys.get_int_max_str_digits()] as the interpreter starts with it: the
    longest decimal literal that [int()] converts, and the longest that
    [str()] writes. *)
Definition int_max_str_digits : nat := 4300.

(** The digits of a literal, the underscores between them left out. *)
Definition count_digits (body : str) : nat := length (filter is_digit body).

(** [int(s)] for a string [s]: surrounding whitespace, an optional sign,
    decimal digits.  A literal of more than [int_max_str_digits] digits is
    refused with the [ValueError] of a malformed one. *)
Definition py_int (s : str) : outcome Z :=
  let '(sign, body) := split_sign (int_strip s) in
  match int_digits 0 false body with
  | Some v =>
      if int_max_str_digits <? count_digits body then Raise ValueError
      else Ok (sign * v)%Z
  | None => Raise ValueError
  end.

Definition digit_char (d : nat) : ascii := ascii_of_nat (48 + d).

(** The decimal digits of a natural number, most significant first. *)
Fixpoint nat_digits (fuel n : nat) (acc : str) : str :=
  match fuel with
  | O => acc
  | S f =>
      let acc' := digit_char (n mod 10) :: acc in
      if n / 10 =? 0 then acc' else nat_digits f (n / 10) acc'
  end.

(** The decimal text of an [int]: what [str(z)] and an f-string write for
    it.  The interpreter writes it for integers of at most
    [int_max_str_digits] digits, which the counts, ranks and limits of the
    reports are; [py_str] is [str(z)] on every [int]. *)
Definition str_of_Z (z : Z) : str :=
  let n := Z.abs_nat z in
  let ds := nat_digits (S n) n [] in
  if (z <? 0)%Z then "-"%char :: ds else ds.

(** [str(z)] for an [int]: refused beyond the limit on the digits. *)
Definition py_str (z : Z) : outcome str :=
  if int_max_str_digits <? count_digits (str_of_Z z) then Raise ValueError
  else Ok (str_of_Z z).

(** [format(z, "02d")]: sign first, then zeros up to a width of two. *)
Definition format_02d (z : Z) : str :=
  let n := Z.abs_nat z in
  let ds := nat_digits (S n) n [] in
  if (z <? 0)%Z
  then "-"%char :: repeat "0"%char (1 - length ds) ++ ds
  else repeat "0"%char (2 - length ds) ++ ds.

(** [s.ljust(w)] *)
Definition ljust (s : str) (w : nat) : str := s ++ repeat SPACE (w - length s).

(** ** generate_json.py *)

Definition digits1 : re := Plus (Chr is_digit).
Definition not_char (x : ascii) : ascii -> bool := fun a => negb (Ascii.eqb a x).
Definition chr (x : ascii) : re := Chr (Ascii.eqb x).
(** [.] without [re.DOTALL] *)
Definition any_char : re := Chr (not_char NEWLINE).

(** The pieces of the line pattern.  Each takes the number its capturing
    group gets in the joined pattern. *)
Definition REMOTE_HOSTNAME_RE (g : nat) : re :=
  Group g (Seqs [digits1; chr "."; digits1; chr "."; digits1; chr "."; digits1]).
Definition REMOTE_LOGNAME_RE (g : nat) : re := Group g (chr "-").
Definition REMOTE_USER_RE (g : nat) : re := Group g (chr "-").
Definition TIME_RE (g : nat) : re :=
  Seqs [chr "["; Group g (Plus (Chr (not_char "]"))); chr "]"].
Definition REQUEST_RE (g : nat) : re :=
  Seqs [chr DQUOTE; Group g (Plus (Chr (not_char DQUOTE))); chr DQUOTE].
Definition STATUS_RE (g : nat) : re := Group g digits1.
Definition BYTES_SIZE_RE (g : nat) : re := Group g (Alt digits1 (chr "-")).
Definition REFERER_RE (g : nat) : re :=
  Seqs [chr DQUOTE; Group g (Plus (Chr (not_char DQUOTE))); chr DQUOTE].
Definition USER_AGENT_RE (g : nat) : re :=
  Seqs [chr DQUOTE; Group g (Plus (Chr (not_char DQUOTE))); chr DQUOTE].

(** [" ".join(pieces)] on patterns. *)
Fixpoint join_space (rs : list re) : re :=
  match rs with
  | [] => Eps
  | [r] => r
  | r :: rs' => Seq r (Seq (chr SPACE) (join_space rs'))
  end.

Definition LOG_LINE_PATTERN : re :=
  join_space [REMOTE_HOSTNAME_RE 1;
              REMOTE_LOGNAME_RE 2;
              REMOTE_USER_RE 3;
              TIME_RE 4;
              REQUEST_RE 5;
              STATUS_RE 6;
              BYTES_SIZE_RE 7;
              REFERER_RE 8;
              USER_AGENT_RE 9].

Definition REGEX : re := Seq Bol (Seq LOG_LINE_PATTERN Eol).

Definition parse_int (value : str) : outcome Z :=
  if str_eqb value (lit "-") then Ok 0%Z else py_int value.

Definition DESKTOP_UA_RE : re :=
  Seq (Star any_char)
      (Group 1 (Alt (Seqs [LitI (lit "Windows NT "); digits1; Opt (chr "."); Star (Chr is_digit)])
               (Alt (Seqs [LitI (lit "Mac OS ");
                           Plus (Chr (fun a => in_range 65 122 a || is_digit a
                                               || Ascii.eqb a "." || Ascii.eqb a "_"
                                               || Ascii.eqb a SPACE))])
                    (Seqs [LitI (lit "Linux "); digits1;
                           Star (Group 2 (Seq (chr ".") digits1))])))).

Definition MOBILE_UA_RE : re :=
  Seq (Star any_char)
      (Group 1 (Alt (Seqs [LitI (lit "iPhone OS "); digits1;
                           Star (Group 2 (Seq (chr "_") digits1))])
               (Alt (Seqs [LitI (lit "Android "); digits1;
                           Star (Group 3 (Seq (chr ".") digits1))])
                    (LitI (lit "iPad"))))).

Definition quoted (s : str) : str := DQUOTE :: s ++ [DQUOTE].

(** Returns the value stored under [system_agent]. *)
Definition extract_client_information (user_agent : str) : M (option str) :=
  match re_match MOBILE_UA_RE user_agent with
  | Some mobile_os_match => ret (group 1 mobile_os_match)
  | None =>
      match re_match DESKTOP_UA_RE user_agent with
      | Some desktop_os_match => ret (group 1 desktop_os_match)
      | None =>
          emit (LogDebug (lit "OS could not be guessed for UA " ++ quoted user_agent));;
          ret (Some (lit "Unknown"))
      end
  end.

Definition METHOD_REGEX : re :=
  Seqs [Bol; Group 1 (Plus (Chr is_upper)); chr SPACE;
        Group 2 (Plus (Chr (not_char SPACE))); chr SPACE;
        Group 3 (Star any_char); Eol].

(** Returns the values stored under [method], [url] and [protocol]. *)
Definition extract_method_and_url (request : str)
  : option str * option str * option str :=
  match re_search METHOD_REGEX request with
  | Some request_match =>
      (group 1 request_match, group 2 request_match, group 3 request_match)
  | None => (None, None, None)
  end.

(** The dictionary [parse_line] builds. *)
Record entry : Type := mk_entry {
  remote_ip : str;
  log_name : str;
  user : str;
  time : str;
  request : str;
  response : Z;
  bytes : Z;
  referrer : str;
  user_agent : str;
  method : option str;
  url : option str;
  protocol : option str;
  system_agent : option str
}.

Definition groups (n : nat) (c : caps) : list (option str) :=
  map (fun i => group i c) (seq 1 n).

(** [None] stands for the [False] the source returns. *)
Definition parse_line (line : str) : M (option entry) :=
  match re_search REGEX line with
  | Some mt =>
      match groups 9 mt with
      | [Some remote_ip; Some log_name; Some user; Some time; Some request;
         Some response; Some size; Some referrer; Some user_agent] =>
          response' <- lift (parse_int response);;
          bytes' <- lift (parse_int size);;
          let '(method, url, protocol) := extract_method_and_url request in
          system_agent <- extract_client_information user_agent;;
          ret (Some (mk_entry remote_ip log_name user time request
                              response' bytes' referrer user_agent
                              method url protocol system_agent))
      | _ => raise TypeError
      end
  | None =>
      emit (LogError (lit "Could not understand line " ++ quoted line));;
      ret None
  end.

(** The loop of [parse_log_file] over the lines the open file yields. *)
Fixpoint parse_lines (fh : list str) (data : list entry) : M (list entry) :=
  match fh with
  | [] => ret data
  | line :: fh' =>
      line_data <- parse_line (strip line);;
      parse_lines fh' (match line_data with
                       | Some e => data ++ [e]
                       | None => data
                       end)
  end.

(** [fh] is the sequence of lines that iterating the opened file gives. *)
Definition parse_log_file (file_name : str) (fh : list str) : M (list entry) :=
  data <- parse_lines fh [];;
  emit (LogInfo (lit "Read " ++ str_of_Z (Z.of_nat (length data))
                 ++ lit " lines from file " ++ file_name));;
  ret data.

(** ** Numbers: [int] and [float] arithmetic as Python does it *)

Definition Z2SF (z : Z) : spec_float :=
  match z with
  | Z0 => S754_zero false
  | Zpos p => S754_finite false p 0
  | Zneg p => S754_finite true p 0
  end.

Definition finite_or_overflow (f : float) : outcome float :=
  if PrimFloat.is_infinity f then Raise OverflowError else Ok f.

(** [float(z)]: the nearest binary64, or [OverflowError]. *)
Definition float_of_Z (z : Z) : outcome float :=
  finite_or_overflow (SF2Prim (binary_normalize prec emax z 0 false)).

(** [a / b] on two [int]s: the correctly rounded quotient. *)
Definition int_truediv (a b : Z) : outcome float :=
  if (b =? 0)%Z then Raise ZeroDivisionError
  else finite_or_overflow (SF2Prim (SFdiv prec emax (Z2SF a) (Z2SF b))).

(** [x / y] on two [float]s. *)
Definition float_truediv (x y : float) : outcome float :=
  if PrimFloat.is_zero y then Raise ZeroDivisionError else Ok (PrimFloat.div x y).

Definition num_as_float (a : num) : outcome float :=
  match a with
  | I z => float_of_Z z
  | F f => Ok f
  end.

Definition obind {A B} (x : outcome A) (f : A -> outcome B) : outcome B :=
  match x with
  | Ok a => f a
  | Raise e => Raise e
  end.

Definition num_truediv (a b : num) : outcome float :=
  match a, b with
  | I x, I y => int_truediv x y
  | _, _ => obind (num_as_float a) (fun x =>
            obind (num_as_float b) (fun y => float_truediv x y))
  end.

Definition num_add (a b : num) : outcome num :=
  match a, b with
  | I x, I y => Ok (I (x + y))
  | _, _ => obind (num_as_float a) (fun x =>
            obind (num_as_float b) (fun y => Ok (F (PrimFloat.add x y))))
  end.

Definition num_mul (a b : num) : outcome num :=
  match a, b with
  | I x, I y => Ok (I (x * y))
  | _, _ => obind (num_as_float a) (fun x =>
            obind (num_as_float b) (fun y => Ok (F (PrimFloat.mul x y))))
  end.

(** An [int] against the exact value of a [float]. *)
Definition Z_compare_SF (z : Z) (x : spec_float) : option comparison :=
  match x with
  | S754_nan => None
  | S754_zero _ => Some (z ?= 0)%Z
  | S754_infinity s => Some (if s then Gt else Lt)
  | S754_finite s mm e =>
      let v := if s then Zneg mm else Zpos mm in
      Some (if (0 <=? e)%Z then (z ?= v * 2 ^ e)%Z else (z * 2 ^ (- e) ?= v)%Z)
  end.

(** [a < b] *)
Definition num_ltb (a b : num) : bool :=
  match a, b with
  | I x, I y => (x <? y)%Z
  | F x, F y => PrimFloat.ltb x y
  | I x, F y => match Z_compare_SF x (Prim2SF y) with Some Lt => true | _ => false end
  | F x, I y => match Z_compare_SF y (Prim2SF x) with Some Gt => true | _ => false end
  end.

(** [int(f)]: truncation towards zero. *)
Definition int_of_float (f : float) : outcome Z :=
  match Prim2SF f with
  | S754_nan => Raise ValueError
  | S754_infinity _ => Raise OverflowError
  | S754_zero _ => Ok 0%Z
  | S754_finite s mm e =>
      let a := if (0 <=? e)%Z then (Zpos mm * 2 ^ e)%Z else (Zpos mm / 2 ^ (- e))%Z in
      Ok (if s then (- a)%Z else a)
  end.

(** [sum(values)]: from the [int] zero, left to right. *)
Fixpoint py_sum_from (acc : num) (l : list num) : outcome num :=
  match l with
  | [] => Ok acc
  | x :: l' => obind (num_add acc x) (fun acc' => py_sum_from acc' l')
  end.

Definition py_sum (l : list num) : outcome num := py_sum_from (I 0) l.

Fixpoint py_max_from (best : num) (l : list num) : num :=
  match l with
  | [] => best
  | x :: l' => py_max_from (if num_ltb best x then x else best) l'
  end.

(** [max(values)]: the first of the largest; [ValueError] on no value. *)
Definition py_max (l : list num) : outcome num :=
  match l with
  | [] => Raise ValueError
  | x :: l' => Ok (py_max_from x l')
  end.

Definition py_max_nat (l : list nat) : outcome nat :=
  match l with
  | [] => Raise ValueError
  | x :: l' => Ok (fold_left Nat.max l' x)
  end.

(** ** Dictionaries *)

(** What a dictionary asks of its keys, and [str(key)]. *)
Class Key (K : Type) : Type := {
  key_eqb : K -> K -> bool;
  key_str : K -> str
}.

#[export] Instance Key_str : Key str := {
  key_eqb := str_eqb;
  key_str := fun s => s
}.

#[export] Instance Key_int : Key Z := {
  key_eqb := Z.eqb;
  key_str := str_of_Z
}.

(** A string or [None]. *)
#[export] Instance Key_opt_str : Key (option str) := {
  key_eqb := fun a b =>
    match a, b with
    | Some x, Some y => str_eqb x y
    | None, None => true
    | _, _ => false
    end;
  key_str := fun a => match a with Some x => x | None => lit "None" end
}.

Definition dict (K V : Type) : Type := list (K * V).

Definition keys {K V} (d : dict K V) : list K := map fst d.
Definition values {K V} (d : dict K V) : list V := map snd d.

(** [d[k] = f(d[k])] on a [defaultdict] whose factory gives [default]. *)
Fixpoint dict_update {K V} `{Key K} (default : V) (f : V -> V) (k : K)
         (d : dict K V) : dict K V :=
  match d with
  | [] => [(k, f default)]
  | (k', v) :: d' =>
      if key_eqb k k' then (k', f v) :: d'
      else (k', v) :: dict_update default f k d'
  end.

(** [data[start:stop]] on a dictionary: the slice is taken as a key, and a
    dictionary has no such item to give. *)
Definition dict_getitem_slice {K V} (data : dict K V) (start stop : Z)
  : outcome (dict K V) := Raise TypeError.

(** [l[0:stop]] on a list. *)
Definition list_slice0 {A} (l : list A) (stop : option Z) : list A :=
  match stop with
  | None => l
  | Some t =>
      if (0 <=? t)%Z then firstn (Z.to_nat t) l
      else firstn (length l - Z.to_nat (- t)) l
  end.

(** ** Sorting: [sorted] is stable *)

Section Sorted.
Variable A : Type.
Variable le : A -> A -> bool.

Fixpoint insert_sorted (x : A) (l : list A) : list A :=
  match l with
  | [] => [x]
  | y :: l' => if le x y then x :: l else y :: insert_sorted x l'
  end.

Fixpoint sorted_by (l : list A) : list A :=
  match l with
  | [] => []
  | x :: l' => insert_sorted x (sorted_by l')
  end.

End Sorted.

(** [s <= t] on strings: by code point, a prefix first. *)
Fixpoint str_leb (s t : str) : bool :=
  match s, t with
  | [], _ => true
  | _ :: _, [] => false
  | a :: s', b :: t' =>
      if code a <? code b then true
      else if code b <? code a then false
      else str_leb s' t'
  end.

(** ** [datetime.strptime(s, "%d/%b/%Y:%H:%M:%S %z")]

    The library compiles the format to a pattern under [re.IGNORECASE],
    matches it at the start of the string, refuses text left over, and
    builds a [datetime], which checks its fields. *)

Record datetime : Type := mk_datetime {
  year : Z; month : Z; day : Z; hour : Z; minute : Z; second : Z;
  utcoffset : Z
}.

Definition D : re := Chr is_digit.
Definition rng (lo hi : string) : re :=
  match lit lo, lit hi with
  | [a], [b] => Chr (in_range (code a) (code b))
  | _, _ => Chr (fun _ => false)
  end.
Fixpoint Alts (rs : list re) : re :=
  match rs with
  | [] => Chr (fun _ => false)
  | [r] => r
  | r :: rs' => Alt r (Alts rs')
  end.

Definition month_abbr : list string :=
  ["jan"; "feb"; "mar"; "apr"; "may"; "jun";
   "jul"; "aug"; "sep"; "oct"; "nov"; "dec"]%string.

Definition is_ws : re := Chr is_space.

Definition STRPTIME_RE : re :=
  Seqs [
    Group 1 (Alts [Seq (chr "3") (rng "0" "1"); Seq (rng "1" "2") D;
                   Seq (chr "0") (rng "1" "9"); rng "1" "9";
                   Seq (chr SPACE) (rng "1" "9")]);
    chr "/";
    Group 2 (Alts (map (fun mn => LitI (lit mn)) month_abbr));
    chr "/";
    Group 3 (Seqs [D; D; D; D]);
    chr ":";
    Group 4 (Alts [Seq (chr "2") (rng "0" "3"); Seq (rng "0" "1") D; D]);
    chr ":";
    Group 5 (Alts [Seq (rng "0" "5") D; D]);
    chr ":";
    Group 6 (Alts [Seq (chr "6") (rng "0" "1"); Seq (rng "0" "5") D; D]);
    Plus is_ws;
    Group 7 (Alt (Seqs [Alt (chr "+") (chr "-"); D; D; Opt (chr ":"); rng "0" "5"; D;
                        Opt (Group 8 (Seqs [Opt (chr ":"); rng "0" "5"; D;
                                            Opt (Group 9 (Seqs [chr "."; D; Opt D; Opt D;
                                                                Opt D; Opt D; Opt D]))]))])
                 (chr "Z"))
  ].

Fixpoint index_of (s : str) (l : list string) (i : Z) : option Z :=
  match l with
  | [] => None
  | x :: l' => if str_eqb s (lit x) then Some i else index_of s l' (i + 1)
  end.

Definition is_leap (y : Z) : bool :=
  ((y mod 4 =? 0) && (negb (y mod 100 =? 0) || (y mod 400 =? 0)))%Z.

Definition days_in_month (y mo : Z) : Z :=
  if (mo =? 2)%Z then (if is_leap y then 29 else 28)
  else if ((mo =? 4) || (mo =? 6) || (mo =? 9) || (mo =? 11))%Z then 30
  else 31.

Definition between (lo x hi : Z) : bool := ((lo <=? x) && (x <=? hi))%Z.

(** The [datetime] constructor. *)
Definition datetime_new (y mo d h mi s off : Z) : outcome datetime :=
  if between 1 y 9999 && between 1 mo 12 && between 1 d (days_in_month y mo)
     && between 0 h 23 && between 0 mi 59 && between 0 s 59
     && between (-86399) off 86399
  then Ok (mk_datetime y mo d h mi s off)
  else Raise ValueError.

(** The UTC offset in seconds from the text of [%z]. *)
Definition parse_z (z : str) : outcome Z :=
  match z with
  | ["Z"%char] => Ok 0%Z
  | sg :: h1 :: h2 :: rest =>
      let rest' := match rest with ":"%char :: r => r | _ => rest end in
      let colon := match rest with ":"%char :: _ => true | _ => false end in
      match rest' with
      | m1 :: m2 :: tl =>
          let secs :=
            match tl with
            | [] => Ok 0%Z
            | c :: tl' =>
                let tl2 := if colon then tl' else tl in
                if colon && negb (Ascii.eqb c ":") then Raise ValueError
                else match tl2 with
                     | s1 :: s2 :: _ => py_int [s1; s2]
                     | _ => Raise ValueError
                     end
            end in
          obind (py_int [h1; h2]) (fun hh =>
          obind (py_int [m1; m2]) (fun mm =>
          obind secs (fun ss =>
            let off := (hh * 3600 + mm * 60 + ss)%Z in
            Ok (if Ascii.eqb sg "-" then (- off)%Z else off))))
      | _ => Raise ValueError
      end
  | _ => Raise ValueError
  end.

Definition strptime (data_string : str) : outcome datetime :=
  match m (length data_string) STRPTIME_RE data_string []
          (fun rest c => Some (rest, c)) with
  | Some ([], c) =>
      match group 1 c, group 2 c, group 3 c, group 4 c, group 5 c, group 6 c, group 7 c with
      | Some d, Some b, Some y, Some h, Some mi, Some s, Some z =>
          obind (py_int d) (fun d' =>
          obind (py_int y) (fun y' =>
          obind (py_int h) (fun h' =>
          obind (py_int mi) (fun mi' =>
          obind (py_int s) (fun s' =>
          obind (parse_z z) (fun off =>
          match index_of (map lower b) month_abbr 1 with
          | Some mo => datetime_new y' mo d' h' mi' s' off
          | None => Raise ValueError
          end))))))
      | _, _, _, _, _, _, _ => Raise ValueError
      end
  | _ => Raise ValueError
  end.

(** ** display_stats.py *)

Definition header (title : str) : M unit := emit (Header title).

Fixpoint for_each {A} (f : A -> M unit) (l : list A) : M unit :=
  match l with
  | [] => ret tt
  | x :: l' => f x;; for_each f l'
  end.

Definition top_suffix (top : option Z) : str :=
  match top with
  | Some t => lit " - Top " ++ str_of_Z t
  | None => []
  end.

(** One line of the bar graph. *)
Definition bar_row {K} `{Key K} (unit : str) (show_percents : bool)
           (sum_values max_value : num) (label_max_length : nat)
           (kv : K * num) : M Datatypes.unit :=
  let '(key, value) := kv in
  v100 <- lift (num_mul value (I 100));;
  bar_size <- lift (num_truediv v100 max_value);;
  bar_len <- lift (int_of_float bar_size);;
  percent_string <-
    (if show_percents
     then v100' <- lift (num_mul value (I 100));;
          percent <- lift (num_truediv v100' sum_values);;
          ret (Some percent)
     else ret None);;
  emit (BarRow (ljust (key_str key) label_max_length) (Z.to_nat bar_len)
               value unit percent_string).

(** [Graph.display(data, title, unit, show_percents, top)] *)
Definition Graph_display {K} `{Key K} (data : dict K num) (title unit : str)
           (show_percents : bool) (top : option Z) : M Datatypes.unit :=
  header (title ++ top_suffix top);;
  sum_values <- lift (py_sum (values data));;
  data <- (match top with
           | Some t => lift (dict_getitem_slice data 0 t)
           | None => ret data
           end);;
  max_value <- lift (py_max (values data));;
  label_max_length <- lift (py_max_nat (map (fun label => length (key_str label)) (keys data)));;
  for_each (bar_row unit show_percents sum_values max_value label_max_length) data.

(** The order of [sorted(data.items(), key=lambda x: x[1], reverse=True)]:
    [x] stays before [y] unless its value is smaller.  It is the order of
    Python on [int]s and on the [float]s a report holds; a NaN, which no sum
    of sizes is, compares as smaller than nothing and is outside of it. *)
Definition by_value_desc {K} (x y : K * num) : bool := negb (num_ltb (snd x) (snd y)).

Fixpoint enumerate {A} (i : nat) (l : list A) : list (nat * A) :=
  match l with
  | [] => []
  | x :: l' => (i, x) :: enumerate (S i) l'
  end.

(** [TopList.display(data, title, unit, top)] *)
Definition TopList_display {K} `{Key K} (data : dict K num) (title unit : str)
           (top : option Z) : M Datatypes.unit :=
  let data := list_slice0 (sorted_by by_value_desc data) top in
  header (match top with
          | Some _ => title ++ top_suffix top
          | None => []
          end);;
  for_each (fun iv : nat * (K * num) =>
              let '(index, value) := iv in
              emit (ListRow (index + 1) (key_str (fst value)) (snd value) unit))
           (enumerate 0 data).

(** The five [defaultdict]s of [get_stats]. *)
Record stats : Type := mk_stats {
  hits_per_page : dict (option str) Z;
  bytes_per_ip : dict str float;
  hits_per_response : dict Z Z;
  hits_per_os : dict (option str) Z;
  hits_per_time : dict str Z
}.

Definition no_stats : stats := mk_stats [] [] [] [] [].

Definition incr {K} `{Key K} (k : K) (d : dict K Z) : dict K Z :=
  dict_update 0%Z (fun v => (v + 1)%Z) k d.

(** The key of the hour an entry falls in. *)
Definition time_bucket (tm : datetime) : str :=
  format_02d (hour tm) ++ lit ":00-" ++ format_02d (hour tm + 1) ++ lit ":00".

(** The body of the loop of [get_stats]. *)
Definition count_entry (st : stats) (e : entry) : outcome stats :=
  let hits_per_page' := incr (url e) (hits_per_page st) in
  obind (int_truediv (bytes e) 1024) (fun kb =>
  obind (num_truediv (F kb) (I 1024)) (fun mb =>
  let bytes_per_ip' :=
    dict_update 0%float (fun v => PrimFloat.add v mb) (remote_ip e) (bytes_per_ip st) in
  let hits_per_response' := incr (response e) (hits_per_response st) in
  let hits_per_os' := incr (system_agent e) (hits_per_os st) in
  obind (strptime (time e)) (fun tm =>
  let hits_per_time' := incr (time_bucket tm) (hits_per_time st) in
  Ok (mk_stats hits_per_page' bytes_per_ip' hits_per_response' hits_per_os'
               hits_per_time')))).

Fixpoint count_entries (st : stats) (data : list entry) : outcome stats :=
  match data with
  | [] => Ok st
  | e :: data' => obind (count_entry st e) (fun st' => count_entries st' data')
  end.

Definition ints {K} (d : dict K Z) : dict K num := map (fun kv => (fst kv, I (snd kv))) d.
Definition floats {K} (d : dict K float) : dict K num := map (fun kv => (fst kv, F (snd kv))) d.

Definition by_key (x y : str * Z) : bool := str_leb (fst x) (fst y).

(** [dict(sorted(hits_per_time.items(), key=lambda x: x[0]))] *)
Definition sorted_hits_per_time (st : stats) : dict str Z :=
  sorted_by by_key (hits_per_time st).

Definition get_stats (data : list entry) : M unit :=
  st <- lift (count_entries no_stats data);;
  TopList_display (ints (hits_per_page st)) (lit "Hits per page") (lit "hits") (Some 10%Z);;
  TopList_display (floats (bytes_per_ip st)) (lit "Megabytes per IP") (lit "MB") (Some 10%Z);;
  Graph_display (ints (hits_per_response st)) (lit "Response codes") (lit "hits") true None;;
  TopList_display (ints (hits_per_os st)) (lit "Hits per OS") (lit "hits") (Some 10%Z);;
  let hits_per_time := sorted_hits_per_time st in
  Graph_display (ints hits_per_time) (lit "Hits per time range") (lit "hits") true None;;
  header (lit "Stats");;
  emit (TotalHits (length data));;
  total <- lift (py_sum (values (floats (bytes_per_ip st))));;
  traffic <- lift (num_truediv total (I 1024));;
  emit (TotalTraffic traffic);;
  emit (DifferentVisitors (length (keys (bytes_per_ip st))));;
  emit (DifferentURLs (length (keys (hits_per_page st)))).

(** ** What a pattern matches

    [den n r s c s1 c1]: on a subject of length [n], [r] can take the
    suffix [s] with captures [c] to the suffix [s1] with captures [c1]. *)

Inductive star_den (P : str -> caps -> str -> caps -> Prop)
  : str -> caps -> str -> caps -> Prop :=
| star_done s c : star_den P s c s c
| star_step s c s' c' s1 c1 :
    P s c s' c' -> length s' < length s -> star_den P s' c' s1 c1 ->
    star_den P s c s1 c1.

Fixpoint den (n : nat) (r : re) (s : str) (c : caps) (s1 : str) (c1 : caps) : Prop :=
  match r with
  | Eps => s1 = s /\ c1 = c
  | Chr p => exists a, s = a :: s1 /\ p a = true /\ c1 = c
  | Seq r1 r2 => exists s' c', den n r1 s c s' c' /\ den n r2 s' c' s1 c1
  | Alt r1 r2 => den n r1 s c s1 c1 \/ den n r2 s c s1 c1
  | Star r1 => star_den (den n r1) s c s1 c1
  | Group i r1 =>
      exists c', den n r1 s c s1 c' /\ c1 = (i, firstn (length s - length s1) s) :: c'
  | Bol => length s = n /\ s1 = s /\ c1 = c
  | Eol => (s = [] \/ s = [NEWLINE]) /\ s1 = s /\ c1 = c
  end.

(** ** The text of a well-formed log line *)

Definition digits (s : str) : Prop := s <> [] /\ forallb is_digit s = true.

(** A non-empty text without the character [x]. *)
Definition free_of (x : ascii) (s : str) : Prop :=
  s <> [] /\ forallb (not_char x) s = true.

Definition is_ipv4_text (ip : str) : Prop :=
  exists a b c d, digits a /\ digits b /\ digits c /\ digits d /\
                  ip = a ++ lit "." ++ b ++ lit "." ++ c ++ lit "." ++ d.

(** The nine fields in the order and with the separators of the
    [combined] log format. *)
Definition log_line_text (ip tm req status size ref ua : str) : str :=
  ip ++ lit " - - [" ++ tm ++ lit "] " ++ quoted req ++ lit " " ++ status
     ++ lit " " ++ size ++ lit " " ++ quoted ref ++ lit " " ++ quoted ua.

Definition fields_ok (ip tm req status size ref ua : str) : Prop :=
  is_ipv4_text ip /\ free_of "]" tm /\ free_of DQUOTE req /\ digits status /\
  (digits size \/ size = lit "-") /\ free_of DQUOTE ref /\ free_of DQUOTE ua.

(** [r] consumes a text that satisfies [P] and captures nothing. *)
Definition consumes (n : nat) (r : re) (P : str -> Prop) : Prop :=
  forall s c s1 c1, den n r s c s1 c1 -> exists a, P a /\ s = a ++ s1 /\ c1 = c.

(** [r] consumes a text that satisfies [P] and captures it as group [g]. *)
Definition captures (n : nat) (r : re) (g : nat) (P : str -> Prop) : Prop :=
  forall s c s1 c1, den n r s c s1 c1 ->
                    exists a, P a /\ s = a ++ s1 /\ c1 = (g, a) :: c.

(** [must_consume r]: every match of [r] takes at least one character. *)
Fixpoint must_consume (r : re) : bool :=
  match r with
  | Chr _ => true
  | Seq r1 r2 => must_consume r1 || must_consume r2
  | Alt r1 r2 => must_consume r1 && must_consume r2
  | Group _ r1 => must_consume r1
  | _ => false
  end.

(** ** What the builder is expected to produce *)

(** The line pattern matches [line]. *)
Definition matches_line (line : str) : bool :=
  match re_search REGEX line with
  | Some _ => true
  | None => false
  end.

(** The entry of a line, when it has one. *)
Definition line_entry (line : str) : option entry :=
  match snd (parse_line line) with
  | Ok (Some e) => Some e
  | _ => None
  end.

Definition olist {A} (o : option A) : list A :=
  match o with
  | Some a => [a]
  | None => []
  end.

(** The status and size tokens of a line the pattern matches. *)
Definition numeric_tokens (line : str) : list str :=
  match re_search REGEX line with
  | Some mt => olist (group 6 mt) ++ olist (group 7 mt)
  | None => []
  end.

(** No numeric token of the line is longer than [int()] converts. *)
Definition in_int_limit (line : str) : bool :=
  forallb (fun tok => length tok <=? int_max_str_digits) (numeric_tokens line).

(** Every line of the input, stripped, is within that limit. *)
Definition within_limit (fh : list str) : bool :=
  forallb (fun line => in_int_limit (strip line)) fh.

Definition is_error (ev : event) : bool :=
  match ev with
  | LogError _ => true
  | _ => false
  end.

(** The records written at level [ERROR]. *)
Definition error_records (t : list event) : list event := filter is_error t.

(** The diagnostic for a line that is skipped. *)
Definition diagnostic (line : str) : event :=
  LogError (lit "Could not understand line " ++ quoted line).

(** [r] can consume the text [a] wherever it stands, capturing nothing. *)
Definition accepts (n : nat) (r : re) (a : str) : Prop :=
  forall s c, den n r (a ++ s) c s c.

(** The captures of a match of the line pattern. *)
Definition line_caps (ip tm req status size ref ua : str) : caps :=
  [(9, ua); (8, ref); (7, size); (6, status); (5, req); (4, tm);
   (3, lit "-"); (2, lit "-"); (1, ip)].

(** ** The labels of the hour buckets *)

(** The two decimal digits of a number below 100. *)
Definition two_digits (h : Z) : str :=
  [digit_char (Z.to_nat (h / 10)); digit_char (Z.to_nat (h mod 10))].

(** [HH:00-HH2:00] with [HH2 = HH + 1]. *)
Definition hour_label (h : Z) : str :=
  two_digits h ++ lit ":00-" ++ two_digits (h + 1) ++ lit ":00".

(** The number of hits a mapping holds. *)
Definition total {K} (d : dict K Z) : Z := fold_right Z.add 0%Z (values d).

(** The starting hour a label shows. *)
Definition label_hour (key : str) : Z :=
  match key with
  | a :: b :: _ => (digit_val a * 10 + digit_val b)%Z
  | _ => 0%Z
  end.

(** The mapping's keys are labels of hours of the day. *)
Definition is_hour_key (kv : str * Z) : Prop :=
  exists h, (0 <= h <= 23)%Z /\ fst kv = hour_label h.

(** The line of one entry: what [bar_row] writes for [kv]. *)
Definition is_bar_row {K} `{Key K} (unit : str) (sum_values max_value : num)
           (width : nat) (kv : K * num) (row : event) : Prop :=
  exists v100 bar_size bar_len percent,
    num_mul (snd kv) (I 100) = Ok v100 /\
    num_truediv v100 max_value = Ok bar_size /\
    int_of_float bar_size = Ok bar_len /\
    num_truediv v100 sum_values = Ok percent /\
    row = BarRow (ljust (key_str (fst kv)) width) (Z.to_nat bar_len)
                 (snd kv) unit (Some percent).

(** ** Sample inputs *)

Definition sample_ip : str := lit "83.149.9.216".
Definition sample_time : str := lit "17/May/2015:23:05:03 +0000".
Definition sample_request : str := lit "GET /presentations/logstash.png HTTP/1.1".
Definition sample_referrer : str := lit "http://semicomplete.com/presentations/".
Definition sample_ua : str :=
  lit "Mozilla/5.0 (Macintosh; Intel Mac OS X 10_9_1) AppleWebKit/537.36".

Definition sample_line : str :=
  log_line_text sample_ip sample_time sample_request (lit "200") (lit "203023")
                sample_referrer sample_ua.

(** The same line with [-] for the status. *)
Definition dash_status_line : str :=
  log_line_text sample_ip sample_time sample_request (lit "-") (lit "203023")
                sample_referrer sample_ua.

Definition sample_file : list str :=
  [sample_line ++ [NEWLINE]; lit "not a log line" ++ [NEWLINE];
   lit "  " ++ dash_status_line ++ [NEWLINE]; sample_line].

(** The same line with a status of one digit more than [int()] converts. *)
Definition long_status_line : str :=
  log_line_text sample_ip sample_time sample_request
                (repeat "1"%char (S int_max_str_digits)) (lit "203023")
                sample_referrer sample_ua.

Definition sample_entry (tm : string) (u : string) (size : Z) : entry :=
  mk_entry sample_ip (lit "-") (lit "-") (lit tm) sample_request 200 size
           sample_referrer sample_ua
           (Some (lit "GET")) (Some (lit u)) (Some (lit "HTTP/1.1"))
           (Some (lit "Mac OS X 10_9_1")).

Definition late_entry : entry :=
  sample_entry "17/May/2015:23:05:03 +0000" "/a" 1048576.
Definition early_entry : entry :=
  sample_entry "18/May/2015:09:15:00 +0200" "/b" 2097152.
Definition bad_time_entry : entry :=
  sample_entry "yesterday at noon" "/c" 512.

Definition iphone_ua : str :=
  lit "Mozilla/5.0 (iPhone; CPU iPhone OS 15_0 like Mac OS X) AppleWebKit/605.1.15".

Definition sample_hits : dict str num := [(lit "200", I 3); (lit "404", I 1)].

Definition the {A} (default : A) (o : option A) : A :=
  match o with
  | Some a => a
  | None => default
  end.

Definition result {A} (default : A) (o : outcome A) : A :=
  match o with
  | Ok a => a
  | Raise _ => default
  end.

(** Ordered by a measure. *)
Definition le_by {A} (f : A -> Z) (x y : A) : Prop := (f x <= f y)%Z.

(** ** Proof automation *)

(** Lists written with [++] and [::], associated to the right. *)
Ltac norm_app :=
  repeat first [rewrite <- app_assoc | rewrite <- app_comm_cons];
  cbn [app lit list_ascii_of_string].

Ltac norm_app_in H :=
  repeat first [rewrite <- app_assoc in H | rewrite <- app_comm_cons in H];
  cbn [app lit list_ascii_of_string] in H.

(** ** The parts of a request *)

(** A method of upper-case letters, a url without space, a protocol without
    newline. *)
Definition request_parts_ok (mth u p : str) : Prop :=
  mth <> [] /\ forallb is_upper mth = true /\
  u <> [] /\ ~ In SPACE u /\ ~ In NEWLINE p.

Definition join_request (mth u p : str) : str :=
  mth ++ lit " " ++ u ++ lit " " ++ p.

(** ** Reading a mapping *)

(** [d.get(k, default)] *)
Fixpoint dict_get {K V} `{Key K} (default : V) (k : K) (d : dict K V) : V :=
  match d with
  | [] => default
  | (k', v) :: d' => if key_eqb k k' then v else dict_get default k d'
  end.

(** How many elements satisfy [f]. *)
Definition count_where {A} (f : A -> bool) (l : list A) : Z :=
  Z.of_nat (length (filter f l)).

(** The entry's time parses and its hour is [h]. *)
Definition at_hour (h : Z) (e : entry) : bool :=
  match strptime (time e) with
  | Ok tm => (hour tm =? h)%Z
  | Raise _ => false
  end.

(** ** Telling keys apart *)

Definition str_dec : forall a b : str, {a = b} + {a <> b} :=
  list_eq_dec ascii_dec.

Definition opt_str_dec (a b : option str) : {a = b} + {a <> b}.
Proof. decide equality. apply str_dec. Defined.

(** ** The lines of a ranked list *)



(** * Properties *)

Unset Implicit Arguments.

(** ** The matcher finds only what the pattern matches, and finds something
       whenever the pattern matches *)

Section MatcherFacts.
Variable R : Type.
Variable n : nat.

Lemma star_loop_sound (body : str -> caps -> (str -> caps -> option R) -> option R)
      (P : str -> caps -> str -> caps -> Prop) :
  (forall s c k x, body s c k = Some x ->
                   exists s1 c1, P s c s1 c1 /\ k s1 c1 = Some x) ->
  forall fuel k s c x,
    star_loop body k fuel s c = Some x ->
    exists s1 c1, star_den P s c s1 c1 /\ k s1 c1 = Some x.
Proof.
  intros Hbody fuel k; induction fuel as [|f IH]; intros s c x H; simpl in H.
  - exists s, c; split; [constructor | assumption].
  - destruct (body s c _) as [y|] eqn:E.
    + inversion H; subst y; clear H.
      apply Hbody in E. destruct E as (s' & c' & HP & Hk).
      destruct (length s' <? length s) eqn:L; [|discriminate].
      apply Nat.ltb_lt in L.
      apply IH in Hk. destruct Hk as (s1 & c1 & HS & Hk).
      exists s1, c1; split; [|assumption].
      eapply star_step; eassumption.
    + exists s, c; split; [constructor | assumption].
Qed.

Lemma m_sound (r : re) :
  forall s c (k : str -> caps -> option R) x,
    m n r s c k = Some x ->
    exists s1 c1, den n r s c s1 c1 /\ k s1 c1 = Some x.
Proof.
  induction r as [|p|r1 IH1 r2 IH2|r1 IH1 r2 IH2|r1 IH1|i r1 IH1| |];
    intros s c k x H; simpl in H.
  - exists s, c; simpl; auto.
  - destruct s as [|a s']; [discriminate|].
    destruct (p a) eqn:E; [|discriminate].
    exists s', c; simpl; split; [exists a; auto | assumption].
  - apply IH1 in H. destruct H as (s' & c' & D1 & H).
    apply IH2 in H. destruct H as (s1 & c1 & D2 & H).
    exists s1, c1; split; [|assumption]. simpl. exists s', c'; auto.
  - destruct (m n r1 s c k) as [y|] eqn:E.
    + inversion H; subst y.
      apply IH1 in E. destruct E as (s1 & c1 & D & Hk).
      exists s1, c1; simpl; auto.
    + apply IH2 in H. destruct H as (s1 & c1 & D & Hk).
      exists s1, c1; simpl; auto.
  - eapply star_loop_sound in H; [|exact IH1]. exact H.
  - apply IH1 in H. destruct H as (s1 & c1 & D & Hk).
    eexists _, _; split; [|exact Hk]. simpl. exists c1; auto.
  - destruct (length s =? n) eqn:E; [|discriminate].
    apply Nat.eqb_eq in E. exists s, c; simpl; auto.
  - destruct s as [|a [|b s']].
    + exists [], c; simpl; auto.
    + destruct (Ascii.eqb a NEWLINE) eqn:E; [|discriminate].
      apply Ascii.eqb_eq in E; subst a.
      exists [NEWLINE], c; simpl; auto.
    + discriminate.
Qed.

Lemma star_loop_complete (body : str -> caps -> (str -> caps -> option R) -> option R)
      (P : str -> caps -> str -> caps -> Prop) :
  (forall s c k s1 c1, body s c k = None -> P s c s1 c1 -> k s1 c1 = None) ->
  forall fuel k s c s1 c1,
    length s <= fuel ->
    star_loop body k fuel s c = None ->
    star_den P s c s1 c1 -> k s1 c1 = None.
Proof.
  intros Hbody fuel k; induction fuel as [|f IH]; intros s c s1 c1 Hlen H HS;
    simpl in H.
  - destruct HS as [s c|s c s' c' s1 c1 HP Hlt HS]; [assumption|lia].
  - destruct (body s c _) as [y|] eqn:E; [discriminate|].
    destruct HS as [s c|s c s' c' s1 c1 HP Hlt HS]; [assumption|].
    pose proof (Hbody _ _ _ _ _ E HP) as Hk. cbv beta in Hk.
    apply Nat.ltb_lt in Hlt as L. rewrite L in Hk.
    eapply IH; [|exact Hk|exact HS]. lia.
Qed.

Lemma m_complete (r : re) :
  forall s c (k : str -> caps -> option R) s1 c1,
    m n r s c k = None -> den n r s c s1 c1 -> k s1 c1 = None.
Proof.
  induction r as [|p|r1 IH1 r2 IH2|r1 IH1 r2 IH2|r1 IH1|i r1 IH1| |];
    intros s c k s1 c1 H Hd; simpl in H, Hd.
  - destruct Hd; subst; assumption.
  - destruct Hd as (a & -> & Hp & ->). rewrite Hp in H. assumption.
  - destruct Hd as (s' & c' & D1 & D2).
    pose proof (IH1 _ _ _ _ _ H D1) as H2. cbv beta in H2.
    eapply IH2; eassumption.
  - destruct (m n r1 s c k) eqn:E; [discriminate|].
    destruct Hd as [Hd|Hd]; [eapply IH1|eapply IH2]; eassumption.
  - eapply star_loop_complete; [exact IH1| |exact H|exact Hd]. lia.
  - destruct Hd as (c' & D & ->).
    exact (IH1 _ _ _ _ _ H D).
  - destruct Hd as (E & -> & ->). apply Nat.eqb_eq in E. rewrite E in H. assumption.
  - destruct Hd as ([->| ->] & -> & ->); [assumption|].
    rewrite Ascii.eqb_refl in H. assumption.
Qed.

End MatcherFacts.

(** ** Reading a match off a pattern, piece by piece *)

Lemma firstn_suffix (a s1 : str) :
  firstn (length (a ++ s1) - length s1) (a ++ s1) = a.
Proof.
  rewrite length_app.
  replace (length a + length s1 - length s1) with (length a + 0) by lia.
  rewrite firstn_app_2. simpl. apply app_nil_r.
Qed.

Section DenFacts.
Variable n : nat.

Lemma den_chr x s c s1 c1 :
  den n (chr x) s c s1 c1 -> s = x :: s1 /\ c1 = c.
Proof.
  intros (a & -> & E & ->). apply Ascii.eqb_eq in E. subst. auto.
Qed.

Lemma den_star_chr p s c s1 c1 :
  den n (Star (Chr p)) s c s1 c1 ->
  exists a, s = a ++ s1 /\ forallb p a = true /\ c1 = c.
Proof.
  simpl. induction 1 as [s c|s c s' c' s1 c1 HP Hlt HS IH].
  - exists []; auto.
  - destruct HP as (a & -> & Hp & ->).
    destruct IH as (b & -> & Hb & ->).
    exists (a :: b); simpl. rewrite Hp, Hb. auto.
Qed.

Lemma den_plus_chr p s c s1 c1 :
  den n (Plus (Chr p)) s c s1 c1 ->
  exists a, a <> [] /\ s = a ++ s1 /\ forallb p a = true /\ c1 = c.
Proof.
  intros (s' & c' & (a & -> & Hp & ->) & HS).
  apply den_star_chr in HS. destruct HS as (b & -> & Hb & ->).
  exists (a :: b); simpl. rewrite Hp, Hb. repeat split; auto. discriminate.
Qed.

Lemma den_star_chr_intro p a s c :
  forallb p a = true -> den n (Star (Chr p)) (a ++ s) c s c.
Proof.
  induction a as [|x a IH]; simpl; intros H.
  - constructor.
  - apply andb_prop in H. destruct H as [Hx Ha].
    eapply star_step with (s' := a ++ s) (c' := c).
    + exists x; auto.
    + simpl; lia.
    + apply IH; assumption.
Qed.

Lemma den_plus_chr_intro p a s c :
  a <> [] -> forallb p a = true -> den n (Plus (Chr p)) (a ++ s) c s c.
Proof.
  destruct a as [|x a]; [congruence|]. simpl. intros _ H.
  apply andb_prop in H. destruct H as [Hx Ha].
  exists (a ++ s), c. split; [exists x; auto|].
  apply den_star_chr_intro; assumption.
Qed.

Lemma den_group g r s c s1 c1 :
  den n (Group g r) s c s1 c1 ->
  forall a, s = a ++ s1 ->
  exists c', den n r s c s1 c' /\ c1 = (g, a) :: c'.
Proof.
  intros (c' & HD & ->) a ->. exists c'. rewrite firstn_suffix. auto.
Qed.

Lemma den_suffix r : forall s c s1 c1,
  den n r s c s1 c1 -> exists a, s = a ++ s1.
Proof.
  induction r as [|p|r1 IH1 r2 IH2|r1 IH1 r2 IH2|r1 IH1|i r1 IH1| |];
    intros s c s1 c1 H; simpl in H.
  - destruct H; subst. exists []; auto.
  - destruct H as (a & -> & _). exists [a]; auto.
  - destruct H as (s' & c' & D1 & D2).
    apply IH1 in D1. apply IH2 in D2.
    destruct D1 as (a & ->). destruct D2 as (b & ->).
    exists (a ++ b). rewrite app_assoc. reflexivity.
  - destruct H as [H|H]; eauto.
  - induction H as [s c|s c s' c' s1 c1 HP Hlt HS IHS].
    + exists []; auto.
    + apply IH1 in HP. destruct HP as (a & ->). destruct IHS as (b & ->).
      exists (a ++ b). rewrite app_assoc. reflexivity.
  - destruct H as (c' & D & _). eauto.
  - destruct H as (_ & -> & _). exists []; auto.
  - destruct H as (_ & -> & _). exists []; auto.
Qed.

(** A group captures the text its pattern consumed. *)
Lemma den_group_text g r s c s1 c1 :
  den n (Group g r) s c s1 c1 ->
  exists a c', s = a ++ s1 /\ den n r s c s1 c' /\ c1 = (g, a) :: c'.
Proof.
  intros H. pose proof H as (c' & HD & _).
  apply den_suffix in HD. destruct HD as (a & E).
  destruct (den_group _ _ _ _ _ _ H a E) as (c'' & HD & ->).
  exists a, c''. auto.
Qed.

Lemma den_lit l : forall s c s1 c1,
  den n (Lit l) s c s1 c1 -> s = l ++ s1 /\ c1 = c.
Proof.
  induction l as [|x l IH]; intros s c s1 c1 H; simpl in H.
  - destruct H; subst; auto.
  - destruct H as (s' & c' & (a & -> & E & ->) & H).
    apply Ascii.eqb_eq in E. subst a.
    apply IH in H. destruct H as [-> ->]. auto.
Qed.

(** A literal under [re.IGNORECASE] consumes as many characters as it has. *)
Lemma den_LitI l : forall s c s1 c1,
  den n (LitI l) s c s1 c1 ->
  exists a, s = a ++ s1 /\ length a = length l /\ c1 = c.
Proof.
  induction l as [|x l IH]; intros s c s1 c1 H; simpl in H.
  - destruct H; subst. exists []; auto.
  - destruct H as (s' & c' & (a & -> & E & ->) & H).
    apply IH in H. destruct H as (b & -> & Hl & ->).
    exists (a :: b); simpl; auto.
Qed.

End DenFacts.

(** ** Cutting a string at the first separator *)

Lemma split_first_unique (x : ascii) (a b s t : str) :
  ~ In x a -> ~ In x b -> a ++ x :: s = b ++ x :: t -> a = b /\ s = t.
Proof.
  revert b; induction a as [|y a IH]; intros [|z b] Ha Hb E; simpl in *.
  - inversion E; auto.
  - inversion E; subst. exfalso; apply Hb; auto.
  - inversion E; subst. exfalso; apply Ha; auto.
  - inversion E; subst.
    destruct (IH b) as [-> ->]; auto.
Qed.

Lemma forallb_not_char_In x (a : str) :
  forallb (not_char x) a = true -> ~ In x a.
Proof.
  intros H Hin. rewrite forallb_forall in H. apply H in Hin.
  unfold not_char in Hin. rewrite Ascii.eqb_refl in Hin. discriminate.
Qed.

Lemma not_In_forallb_not_char x (a : str) :
  ~ In x a -> forallb (not_char x) a = true.
Proof.
  intros H. apply forallb_forall. intros y Hy. unfold not_char.
  destruct (Ascii.eqb y x) eqn:E; [|reflexivity].
  apply Ascii.eqb_eq in E. subst. contradiction.
Qed.

Lemma forallb_digit_not_In x (a : str) :
  is_digit x = false -> forallb is_digit a = true -> ~ In x a.
Proof.
  intros Hx H Hin. rewrite forallb_forall in H. apply H in Hin. congruence.
Qed.

(** ** The pieces of the line pattern *)

Section Pieces.
Variable n : nat.

Lemma consumes_chr x : consumes n (chr x) (fun a => a = [x]).
Proof.
  intros s c s1 c1 H. apply den_chr in H. destruct H as [-> ->].
  exists [x]; auto.
Qed.

Lemma consumes_plus_chr p :
  consumes n (Plus (Chr p)) (fun a => a <> [] /\ forallb p a = true).
Proof.
  intros s c s1 c1 H. apply den_plus_chr in H.
  destruct H as (a & Ha & -> & Hp & ->). exists a; auto.
Qed.

Lemma consumes_star_chr p :
  consumes n (Star (Chr p)) (fun a => forallb p a = true).
Proof.
  intros s c s1 c1 H. apply den_star_chr in H.
  destruct H as (a & -> & Hp & ->). exists a; auto.
Qed.

Lemma consumes_digits1 : consumes n digits1 digits.
Proof. apply consumes_plus_chr. Qed.

Lemma consumes_seq r1 r2 P1 P2 :
  consumes n r1 P1 -> consumes n r2 P2 ->
  consumes n (Seq r1 r2) (fun a => exists a1 a2, P1 a1 /\ P2 a2 /\ a = a1 ++ a2).
Proof.
  intros H1 H2 s c s1 c1 (s' & c' & D1 & D2).
  apply H1 in D1. destruct D1 as (a1 & Pa1 & -> & ->).
  apply H2 in D2. destruct D2 as (a2 & Pa2 & -> & ->).
  exists (a1 ++ a2). rewrite app_assoc. eauto 8.
Qed.

Lemma consumes_alt r1 r2 P1 P2 :
  consumes n r1 P1 -> consumes n r2 P2 ->
  consumes n (Alt r1 r2) (fun a => P1 a \/ P2 a).
Proof.
  intros H1 H2 s c s1 c1 [D|D]; [apply H1 in D|apply H2 in D];
    destruct D as (a & Pa & -> & ->); exists a; auto.
Qed.

Lemma consumes_weaken r (P Q : str -> Prop) :
  (forall a, P a -> Q a) -> consumes n r P -> consumes n r Q.
Proof.
  intros HPQ H s c s1 c1 D. apply H in D.
  destruct D as (a & Pa & -> & ->). exists a; auto.
Qed.

Lemma captures_group g r P : consumes n r P -> captures n (Group g r) g P.
Proof.
  intros H s c s1 c1 D. apply den_group_text in D.
  destruct D as (a & c' & -> & D & ->).
  apply H in D. destruct D as (b & Pb & E & ->).
  apply app_inv_tail in E. subst b. exists a; auto.
Qed.

(** A group between two consumed texts. *)
Lemma captures_bracket g l r0 r P :
  consumes n r0 P ->
  forall s c s1 c1,
    den n (Seqs [chr l; Group g r0; chr r]) s c s1 c1 ->
    exists a, P a /\ s = l :: a ++ r :: s1 /\ c1 = (g, a) :: c.
Proof.
  intros H s c s1 c1 D. cbn [Seqs den] in D.
  destruct D as (s2 & c2 & D1 & s3 & c3 & D2 & D3).
  apply den_chr in D1. destruct D1 as [-> ->].
  apply (captures_group g _ _ H) in D2. destruct D2 as (a & Pa & -> & ->).
  apply den_chr in D3. destruct D3 as [-> ->].
  exists a; auto.
Qed.

Lemma captures_REMOTE_HOSTNAME g : captures n (REMOTE_HOSTNAME_RE g) g is_ipv4_text.
Proof.
  unfold REMOTE_HOSTNAME_RE. apply captures_group. cbn [Seqs].
  eapply consumes_weaken;
    [|repeat first [apply consumes_digits1 | apply consumes_chr | apply consumes_seq]].
  intros ip (a & r1 & Ha & (d1 & r2 & -> & (b & r3 & Hb & (d2 & r4 & -> &
             (c & r5 & Hc & (d3 & d & -> & Hd & ->) & ->) & ->) & ->) & ->) & ->).
  exists a, b, c, d. repeat split; try apply Ha; try apply Hb; try apply Hc; try apply Hd.
Qed.

Lemma captures_dash g : captures n (Group g (chr "-")) g (fun a => a = lit "-").
Proof. apply captures_group. apply consumes_chr. Qed.

Lemma captures_TIME g s c s1 c1 :
  den n (TIME_RE g) s c s1 c1 ->
  exists a, free_of "]" a /\ s = "["%char :: a ++ "]"%char :: s1 /\ c1 = (g, a) :: c.
Proof. apply captures_bracket. apply consumes_plus_chr. Qed.

Lemma captures_quoted g s c s1 c1 :
  den n (Seqs [chr DQUOTE; Group g (Plus (Chr (not_char DQUOTE))); chr DQUOTE]) s c s1 c1 ->
  exists a, free_of DQUOTE a /\ s = quoted a ++ s1 /\ c1 = (g, a) :: c.
Proof.
  intros D. apply (captures_bracket g DQUOTE _ DQUOTE _ (consumes_plus_chr (not_char DQUOTE))) in D.
  destruct D as (a & Pa & -> & ->). exists a. unfold quoted. norm_app. auto.
Qed.

Lemma captures_STATUS g : captures n (STATUS_RE g) g digits.
Proof. apply captures_group. apply consumes_digits1. Qed.

Lemma captures_BYTES_SIZE g :
  captures n (BYTES_SIZE_RE g) g (fun a => digits a \/ a = lit "-").
Proof.
  apply captures_group. apply consumes_alt; [apply consumes_digits1|apply consumes_chr].
Qed.

End Pieces.

(** What a match of the whole line pattern says about the line. *)
Lemma REGEX_den n line s1 c1 :
  den n REGEX line [] s1 c1 ->
  exists ip tm req status size ref ua,
    fields_ok ip tm req status size ref ua /\
    line = log_line_text ip tm req status size ref ua ++ s1 /\
    (s1 = [] \/ s1 = [NEWLINE]) /\
    c1 = [(9, ua); (8, ref); (7, size); (6, status); (5, req); (4, tm);
          (3, lit "-"); (2, lit "-"); (1, ip)].
Proof.
  unfold REGEX, LOG_LINE_PATTERN. cbn [join_space].
  intros (s0 & c0 & (_ & -> & ->) & sE & cE & D & (HE & -> & ->)).
  cbn [den] in D.
  destruct D as (? & ? & D1 & ? & ? & S1 & ? & ? & D2 & ? & ? & S2 &
                 ? & ? & D3 & ? & ? & S3 & ? & ? & D4 & ? & ? & S4 &
                 ? & ? & D5 & ? & ? & S5 & ? & ? & D6 & ? & ? & S6 &
                 ? & ? & D7 & ? & ? & S7 & ? & ? & D8 & ? & ? & S8 & D9).
  apply captures_REMOTE_HOSTNAME in D1. destruct D1 as (ip & Hip & -> & ->).
  apply den_chr in S1. destruct S1 as [-> ->].
  apply captures_dash in D2. destruct D2 as (? & -> & -> & ->).
  apply den_chr in S2. destruct S2 as [-> ->].
  apply captures_dash in D3. destruct D3 as (? & -> & -> & ->).
  apply den_chr in S3. destruct S3 as [-> ->].
  apply captures_TIME in D4. destruct D4 as (tm & Htm & -> & ->).
  apply den_chr in S4. destruct S4 as [-> ->].
  apply captures_quoted in D5. destruct D5 as (req & Hreq & -> & ->).
  apply den_chr in S5. destruct S5 as [-> ->].
  apply captures_STATUS in D6. destruct D6 as (status & Hstatus & -> & ->).
  apply den_chr in S6. destruct S6 as [-> ->].
  apply captures_BYTES_SIZE in D7. destruct D7 as (size & Hsize & -> & ->).
  apply den_chr in S7. destruct S7 as [-> ->].
  apply captures_quoted in D8. destruct D8 as (ref & Href & -> & ->).
  apply den_chr in S8. destruct S8 as [-> ->].
  apply captures_quoted in D9. destruct D9 as (ua & Hua & -> & ->).
  exists ip, tm, req, status, size, ref, ua.
  split; [unfold fields_ok; auto 10|].
  split; [unfold log_line_text, quoted, SPACE; norm_app; reflexivity|].
  split; [exact HE|reflexivity].
Qed.

(** ** [search] and [match] *)

Lemma search_from_sound n r : forall s c,
  search_from n r s = Some c ->
  exists p s' s1, s = p ++ s' /\ den n r s' [] s1 c.
Proof.
  induction s as [|a s IH]; intros c H; simpl in H.
  - destruct (m n r [] [] _) as [c'|] eqn:E; [|discriminate].
    inversion H; subst c'. apply m_sound in E.
    destruct E as (s1 & c1 & D & Hk). inversion Hk; subst c1.
    exists [], [], s1; auto.
  - destruct (m n r (a :: s) [] _) as [c'|] eqn:E.
    + inversion H; subst c'. apply m_sound in E.
      destruct E as (s1 & c1 & D & Hk). inversion Hk; subst c1.
      exists [], (a :: s), s1; auto.
    + apply IH in H. destruct H as (p & s' & s1 & -> & D).
      exists (a :: p), s', s1; auto.
Qed.

Lemma search_from_complete n r : forall p s s1 c,
  den n r s [] s1 c -> search_from n r (p ++ s) <> None.
Proof.
  assert (Here : forall s s1 c, den n r s [] s1 c -> search_from n r s <> None).
  { intros s s1 c D H.
    assert (E : m n r s [] (fun _ c => Some c) = None).
    { destruct s; simpl in H; destruct (m n r _ [] _); congruence. }
    pose proof (m_complete _ n r s [] (fun _ c0 => Some c0) s1 c E D) as Hk.
    discriminate. }
  induction p as [|a p IH]; intros s s1 c D.
  - eapply Here; eassumption.
  - simpl. destruct (m n r (a :: p ++ s) [] _); [discriminate|].
    eapply IH; eassumption.
Qed.

(** A pattern that starts with [^] can only match the whole subject. *)
Lemma re_search_Bol_sound r line c :
  re_search (Seq Bol r) line = Some c ->
  exists s1, den (length line) (Seq Bol r) line [] s1 c.
Proof.
  intros H. apply search_from_sound in H.
  destruct H as (p & s' & s1 & E & D).
  pose proof D as (s0 & c0 & (Hl & _ & _) & _).
  assert (p = []) as ->.
  { rewrite E, length_app in Hl. destruct p; [reflexivity|simpl in Hl; lia]. }
  simpl in E. subst s'. exists s1; assumption.
Qed.

Lemma re_search_complete r line s1 c :
  den (length line) r line [] s1 c -> re_search r line <> None.
Proof.
  intros D. exact (search_from_complete (length line) r [] line s1 c D).
Qed.

Lemma re_match_sound r s c :
  re_match r s = Some c -> exists s1, den (length s) r s [] s1 c.
Proof.
  intros H. apply m_sound in H. destruct H as (s1 & c1 & D & Hk).
  inversion Hk; subst. eauto.
Qed.

(** ** Whitespace and integers *)

Lemma lstrip_head s a s' : lstrip s = a :: s' -> is_space a = false.
Proof.
  induction s as [|b s IH]; simpl; [discriminate|].
  destruct (is_space b) eqn:E; [exact IH|].
  intros H. inversion H; subst. exact E.
Qed.

(** A stripped text does not end in whitespace. *)
Lemma strip_last line x b : strip line = x ++ [b] -> is_space b = false.
Proof.
  unfold strip, rstrip. intros H.
  apply (f_equal (@rev ascii)) in H. rewrite rev_involutive, rev_app_distr in H.
  simpl in H. eapply lstrip_head; eassumption.
Qed.

Lemma digit_val_nonneg a : (0 <= digit_val a)%Z.
Proof. unfold digit_val. lia. Qed.

Lemma int_digits_digits : forall s acc b,
  forallb is_digit s = true -> s <> [] \/ b = true -> (0 <= acc)%Z ->
  exists v, int_digits acc b s = Some v /\ (0 <= v)%Z.
Proof.
  induction s as [|a s IH]; intros acc b H Hne Hacc; simpl.
  - destruct Hne as [Hne| ->]; [congruence|]. eauto.
  - simpl in H. apply andb_prop in H. destruct H as [Ha Hs]. rewrite Ha.
    apply IH; auto. pose proof (digit_val_nonneg a). lia.
Qed.

Lemma split_sign_digit a s :
  is_digit a = true -> split_sign (a :: s) = (1%Z, a :: s).
Proof.
  intros Ha.
  destruct a as [[] [] [] [] [] [] [] []]; try reflexivity;
    vm_compute in Ha; discriminate.
Qed.

Lemma digit_not_int_space a : is_digit a = true -> is_int_space a = false.
Proof.
  destruct a as [[] [] [] [] [] [] [] []]; vm_compute; congruence.
Qed.

Lemma int_strip_digits s : forallb is_digit s = true -> int_strip s = s.
Proof.
  intros H. unfold int_strip.
  assert (L : forall t, forallb is_digit t = true -> int_lstrip t = t).
  { intros [|a t] Ht; [reflexivity|]. simpl in Ht. apply andb_prop in Ht.
    simpl. rewrite (digit_not_int_space _ (proj1 Ht)). reflexivity. }
  rewrite (L s H), L, rev_involutive; [reflexivity|].
  rewrite forallb_forall in *. intros x Hx. apply H. apply in_rev. assumption.
Qed.

Lemma count_digits_digits s : forallb is_digit s = true -> count_digits s = length s.
Proof.
  intros H. unfold count_digits. rewrite forallb_filter_id; auto.
Qed.

(** [int()] on a run of digits: the number, or the refusal of a run longer
    than the limit. *)
Lemma py_int_digits s :
  digits s ->
  (length s <= int_max_str_digits /\ exists v, py_int s = Ok v /\ (0 <= v)%Z) \/
  (int_max_str_digits < length s /\ py_int s = Raise ValueError).
Proof.
  intros [Hne H]. unfold py_int. rewrite (int_strip_digits _ H).
  destruct s as [|a s]; [congruence|].
  pose proof H as H'. simpl in H'. apply andb_prop in H'. destruct H' as [Ha _].
  rewrite (split_sign_digit _ _ Ha), (count_digits_digits _ H).
  destruct (int_digits_digits (a :: s) 0%Z false H) as (v & -> & Hv);
    [left; discriminate|lia|].
  destruct (int_max_str_digits <? length (a :: s)) eqn:E.
  - right. apply Nat.ltb_lt in E. auto.
  - left. apply Nat.ltb_ge in E. split; [exact E|].
    exists (1 * v)%Z. split; [reflexivity|lia].
Qed.

Lemma parse_int_cases s :
  digits s \/ s = lit "-" ->
  (length s <= int_max_str_digits /\ exists v, parse_int s = Ok v /\ (0 <= v)%Z) \/
  (int_max_str_digits < length s /\ parse_int s = Raise ValueError).
Proof.
  unfold parse_int. destruct (str_eqb s (lit "-")) eqn:E.
  - intros _. left. unfold str_eqb in E.
    destruct (list_eq_dec ascii_dec s (lit "-")) as [->|]; [|discriminate].
    split; [unfold int_max_str_digits; simpl; lia|].
    exists 0%Z. split; [reflexivity|lia].
  - intros [H| ->]; [apply py_int_digits; assumption|].
    vm_compute in E. discriminate.
Qed.

Lemma parse_int_ok s :
  digits s \/ s = lit "-" -> length s <= int_max_str_digits ->
  exists v, parse_int s = Ok v /\ (0 <= v)%Z.
Proof.
  intros H L. destruct (parse_int_cases s H) as [[_ K]|[K _]]; [exact K|lia].
Qed.

Lemma str_eqb_eq s t : str_eqb s t = true <-> s = t.
Proof.
  unfold str_eqb. destruct (list_eq_dec ascii_dec s t); split; congruence.
Qed.

Lemma parse_int_dash : parse_int (lit "-") = Ok 0%Z.
Proof. reflexivity. Qed.

Lemma must_consume_sound n r : forall s c s1 c1,
  must_consume r = true -> den n r s c s1 c1 -> length s1 < length s.
Proof.
  induction r as [|p|r1 IH1 r2 IH2|r1 IH1 r2 IH2|r1 IH1|i r1 IH1| |];
    intros s c s1 c1 Hm D; simpl in Hm, D; try discriminate.
  - destruct D as (a & -> & _). simpl; lia.
  - destruct D as (s' & c' & D1 & D2).
    pose proof (den_suffix n _ _ _ _ _ D1) as (a & Ea).
    pose proof (den_suffix n _ _ _ _ _ D2) as (b & Eb).
    apply (f_equal (@length ascii)) in Ea, Eb. rewrite length_app in Ea, Eb.
    apply orb_prop in Hm. destruct Hm as [Hm|Hm].
    + apply (IH1 _ _ _ _ Hm) in D1. lia.
    + apply (IH2 _ _ _ _ Hm) in D2. lia.
  - apply andb_prop in Hm. destruct Hm as [Hm1 Hm2].
    destruct D as [D|D]; eauto.
  - destruct D as (c' & D & _). eauto.
Qed.

(** ** The monad *)

Lemma bind_lift_ok {A B} (a : A) (f : A -> M B) : bind (lift (Ok a)) f = f a.
Proof. unfold bind, lift. destruct (f a). reflexivity. Qed.

Lemma bind_ret {A B} (a : A) (f : A -> M B) : bind (ret a) f = f a.
Proof. unfold bind, ret. destruct (f a). reflexivity. Qed.

Lemma bind_lift_raise {A B} e (f : A -> M B) : bind (lift (Raise e)) f = ([], Raise e).
Proof. reflexivity. Qed.


(** ** The client classifier *)

(** The label is a non-empty string, and it is ["Unknown"] when neither
    heuristic matched. *)
Lemma first_group_nonempty r0 r ua c :
  must_consume r = true ->
  re_match (Seq r0 (Group 1 r)) ua = Some c ->
  exists a, group 1 c = Some a /\ a <> [].
Proof.
  intros Hm H. apply re_match_sound in H. destruct H as (s1 & s' & c' & _ & DG).
  apply den_group_text in DG. destruct DG as (a & c'' & -> & D & ->).
  exists a. split; [reflexivity|].
  apply (must_consume_sound _ _ _ _ _ _ Hm) in D.
  intros ->. simpl in D. lia.
Qed.

Lemma extract_client_information_ok ua :
  exists t sa,
    extract_client_information ua = (t, Ok (Some sa)) /\ sa <> [] /\
    (re_match MOBILE_UA_RE ua = None -> re_match DESKTOP_UA_RE ua = None ->
     sa = lit "Unknown").
Proof.
  unfold extract_client_information.
  destruct (re_match MOBILE_UA_RE ua) as [cm|] eqn:Em.
  - apply first_group_nonempty in Em; [|reflexivity].
    destruct Em as (a & -> & Ha). exists [], a. repeat split; auto. discriminate.
  - destruct (re_match DESKTOP_UA_RE ua) as [cd|] eqn:Ed.
    + apply first_group_nonempty in Ed; [|reflexivity].
      destruct Ed as (a & -> & Ha). exists [], a. repeat split; auto. discriminate.
    + eexists _, _. split; [reflexivity|]. split; [discriminate|auto].
Qed.

(** ** One line *)

(** A line the pattern matches becomes an entry that holds the line's
    fields, unless [int()] refuses its status or its size: then the call
    raises, before anything is logged. *)
Lemma parse_line_match_cases line mt :
  re_search REGEX line = Some mt ->
  exists ip tm req status size ref ua s1,
    fields_ok ip tm req status size ref ua /\
    line = log_line_text ip tm req status size ref ua ++ s1 /\
    (s1 = [] \/ s1 = [NEWLINE]) /\
    numeric_tokens line = [status; size] /\
    ((length status <= int_max_str_digits /\ length size <= int_max_str_digits /\
      exists t e,
        parse_line line = (t, Ok (Some e)) /\
        remote_ip e = ip /\ log_name e = lit "-" /\ user e = lit "-" /\
        time e = tm /\ request e = req /\ referrer e = ref /\ user_agent e = ua /\
        parse_int status = Ok (response e) /\ parse_int size = Ok (bytes e) /\
        (0 <= response e)%Z /\ (0 <= bytes e)%Z /\
        (method e, url e, protocol e) = extract_method_and_url req /\
        extract_client_information ua = (t, Ok (system_agent e))) \/
     ((int_max_str_digits < length status \/ int_max_str_digits < length size) /\
      parse_line line = ([], Raise ValueError))).
Proof.
  intros H. pose proof H as H0.
  apply re_search_Bol_sound in H0. destruct H0 as (s1 & D).
  apply REGEX_den in D.
  destruct D as (ip & tm & req & status & size & ref & ua & Hok & E & Hs1 & Emt).
  exists ip, tm, req, status, size, ref, ua, s1.
  split; [exact Hok|]. split; [exact E|]. split; [exact Hs1|].
  split; [unfold numeric_tokens; rewrite H, Emt; reflexivity|].
  unfold parse_line. rewrite H, Emt.
  pose proof Hok as (_ & _ & _ & Hst & Hsz & _ & _).
  cbn [groups map seq group Nat.eqb line_caps].
  destruct (parse_int_cases status (or_introl Hst)) as [(Ls & rv & Er & Hr)|(Ls & Er)];
    [|right; split; [left; exact Ls|rewrite Er; reflexivity]].
  destruct (parse_int_cases size Hsz) as [(Lz & bv & Eb & Hb)|(Lz & Eb)];
    [|right; split; [right; exact Lz|rewrite Er, bind_lift_ok, Eb; reflexivity]].
  left. split; [exact Ls|]. split; [exact Lz|].
  destruct (extract_client_information_ok ua) as (t & sa & Eua & _).
  destruct (extract_method_and_url req) as [[mm uu] pp] eqn:Emu.
  rewrite Er, bind_lift_ok, Eb, bind_lift_ok, Eua.
  exists t. eexists.
  split; [unfold bind, ret; rewrite app_nil_r; reflexivity|].
  cbn. repeat split; auto.
Qed.

Lemma in_int_limit_tokens line status size :
  numeric_tokens line = [status; size] ->
  in_int_limit line = true <->
  length status <= int_max_str_digits /\ length size <= int_max_str_digits.
Proof.
  intros E. unfold in_int_limit. rewrite E. cbn [forallb].
  rewrite andb_true_r, andb_true_iff, !Nat.leb_le. reflexivity.
Qed.

(** A line the pattern matches, with numeric tokens that [int()] converts,
    becomes an entry that holds the line's fields. *)
Lemma parse_line_match line mt :
  re_search REGEX line = Some mt -> in_int_limit line = true ->
  exists ip tm req status size ref ua s1 t e,
    fields_ok ip tm req status size ref ua /\
    line = log_line_text ip tm req status size ref ua ++ s1 /\
    (s1 = [] \/ s1 = [NEWLINE]) /\
    parse_line line = (t, Ok (Some e)) /\
    remote_ip e = ip /\ log_name e = lit "-" /\ user e = lit "-" /\
    time e = tm /\ request e = req /\ referrer e = ref /\ user_agent e = ua /\
    parse_int status = Ok (response e) /\ parse_int size = Ok (bytes e) /\
    (0 <= response e)%Z /\ (0 <= bytes e)%Z /\
    (method e, url e, protocol e) = extract_method_and_url req /\
    extract_client_information ua = (t, Ok (system_agent e)).
Proof.
  intros H L.
  destruct (parse_line_match_cases _ _ H)
    as (ip & tm & req & status & size & ref & ua & s1 & Hok & E & Hs1 & Hn & K).
  apply (in_int_limit_tokens _ _ _ Hn) in L.
  destruct K as [(_ & _ & t & e & K)|(K & _)]; [|lia].
  exists ip, tm, req, status, size, ref, ua, s1, t, e. auto.
Qed.

(** A call that returns was within the limit. *)
Lemma parse_line_returns line t r :
  parse_line line = (t, Ok r) -> in_int_limit line = true.
Proof.
  intros Hp. destruct (re_search REGEX line) as [mt|] eqn:H.
  - destruct (parse_line_match_cases _ _ H)
      as (ip & tm & req & status & size & ref & ua & s1 & _ & _ & _ & Hn & K).
    apply (in_int_limit_tokens _ _ _ Hn).
    destruct K as [(Ls & Lz & _)|(_ & K)]; [auto|congruence].
  - unfold in_int_limit, numeric_tokens. rewrite H. reflexivity.
Qed.

Lemma parse_line_no_match line :
  re_search REGEX line = None ->
  parse_line line =
    ([LogError (lit "Could not understand line " ++ quoted line)], Ok None).
Proof. intros H. unfold parse_line. rewrite H. reflexivity. Qed.

Lemma extract_client_information_quiet ua :
  error_records (fst (extract_client_information ua)) = [].
Proof.
  unfold extract_client_information.
  destruct (re_match MOBILE_UA_RE ua); [reflexivity|].
  destruct (re_match DESKTOP_UA_RE ua); reflexivity.
Qed.

(** A line becomes an entry, or a diagnostic and nothing else, or, with a
    numeric token beyond the limit, the [ValueError] of [int()]. *)
Lemma parse_line_cases line :
  (matches_line line = true /\ in_int_limit line = true /\
   exists t e, parse_line line = (t, Ok (Some e)) /\ error_records t = [] /\
               line_entry line = Some e) \/
  (matches_line line = false /\ in_int_limit line = true /\
   parse_line line = ([diagnostic line], Ok None) /\ line_entry line = None) \/
  (matches_line line = true /\ in_int_limit line = false /\
   parse_line line = ([], Raise ValueError) /\ line_entry line = None).
Proof.
  unfold matches_line, line_entry.
  destruct (re_search REGEX line) as [mt|] eqn:E.
  - destruct (parse_line_match_cases _ _ E)
      as (ip & tm & req & status & size & ref & ua & s1 & _ & _ & _ & Hn & K).
    pose proof (in_int_limit_tokens _ _ _ Hn) as L.
    destruct K as [(Ls & Lz & t & e & H)|(K & Hp)].
    + left. split; [reflexivity|]. split; [apply L; auto|].
      decompose [and] H. exists t, e.
      match goal with H : parse_line line = _ |- _ => rewrite H end.
      repeat split.
      match goal with H : extract_client_information _ = _ |- _ =>
        pose proof (extract_client_information_quiet ua) as Q; subst ua;
        rewrite H in Q; exact Q end.
    + right. right. split; [reflexivity|]. rewrite Hp.
      split; [|split; reflexivity].
      destruct (in_int_limit line); [|reflexivity].
      destruct L as [L _]. specialize (L eq_refl). lia.
  - right. left. split; [reflexivity|].
    split; [unfold in_int_limit, numeric_tokens; rewrite E; reflexivity|].
    rewrite (parse_line_no_match _ E). split; reflexivity.
Qed.

Lemma error_records_app t1 t2 :
  error_records (t1 ++ t2) = error_records t1 ++ error_records t2.
Proof. apply filter_app. Qed.

(** ** The loop over the lines *)

Lemma parse_lines_spec : forall fh data,
  within_limit fh = true ->
  exists t,
    parse_lines fh data =
      (t, Ok (data ++ flat_map (fun line => olist (line_entry (strip line))) fh)) /\
    error_records t =
      map (fun line => diagnostic (strip line))
          (filter (fun line => negb (matches_line (strip line))) fh).
Proof.
  induction fh as [|line fh IH]; intros data L.
  - exists []. simpl. rewrite app_nil_r. auto.
  - cbn [within_limit forallb] in L. apply andb_prop in L. destruct L as [L1 L2].
    cbn [parse_lines flat_map filter].
    destruct (parse_line_cases (strip line))
      as [(Hm & _ & t & e & Hp & Hq & He)|[(Hm & _ & Hp & He)|(_ & K & _)]];
      [| |congruence]; rewrite Hp, Hm, He; cbn [negb olist map].
    + destruct (IH (data ++ [e]) L2) as (t' & Ht' & Hq').
      exists (t ++ t'). unfold bind. rewrite Ht'.
      rewrite <- app_assoc. split; [reflexivity|].
      rewrite error_records_app, Hq, Hq'. reflexivity.
    + destruct (IH data L2) as (t' & Ht' & Hq').
      exists (diagnostic (strip line) :: t'). unfold bind. rewrite Ht'.
      split; [reflexivity|].
      change (diagnostic (strip line) :: t') with ([diagnostic (strip line)] ++ t').
      rewrite error_records_app, Hq'. reflexivity.
Qed.

(** A numeric token beyond the limit, on any line, ends the loop with the
    [ValueError] of [int()]. *)
Lemma parse_lines_raises : forall fh data,
  within_limit fh = false -> exists t, parse_lines fh data = (t, Raise ValueError).
Proof.
  induction fh as [|line fh IH]; intros data L; [discriminate|].
  cbn [within_limit forallb] in L. cbn [parse_lines].
  destruct (parse_line_cases (strip line))
    as [(_ & K & t & e & Hp & _)|[(_ & K & Hp & _)|(_ & _ & Hp & _)]];
    rewrite Hp; unfold bind.
  - rewrite K in L. destruct (IH (data ++ [e]) L) as (t' & ->). eauto.
  - rewrite K in L. destruct (IH data L) as (t' & ->). eauto.
  - eauto.
Qed.

Lemma length_flat_map_olist (fh : list str) :
  within_limit fh = true ->
  length (flat_map (fun line => olist (line_entry (strip line))) fh) =
  length (filter (fun line => matches_line (strip line)) fh).
Proof.
  induction fh as [|line fh IH]; intros L; [reflexivity|].
  cbn [within_limit forallb] in L. apply andb_prop in L. destruct L as [L1 L2].
  cbn [flat_map filter]. rewrite length_app, (IH L2).
  destruct (parse_line_cases (strip line))
    as [(Hm & _ & t & e & _ & _ & He)|[(Hm & _ & _ & He)|(_ & K & _)]];
    [| |congruence]; rewrite Hm, He; reflexivity.
Qed.

(** The collection is the entries of the lines, in order. *)
Lemma parse_log_file_data (file_name : str) (fh : list str) :
  within_limit fh = true ->
  exists log,
    parse_log_file file_name fh =
      (log, Ok (flat_map (fun line => olist (line_entry (strip line))) fh)) /\
    error_records log =
      map (fun line => diagnostic (strip line))
          (filter (fun line => negb (matches_line (strip line))) fh).
Proof.
  intros L. destruct (parse_lines_spec fh [] L) as (t & Ht & Hq).
  unfold parse_log_file. rewrite Ht. cbn [app] in *.
  eexists. split; [unfold bind, emit, ret; reflexivity|].
  rewrite error_records_app, Hq. cbn. rewrite app_nil_r. reflexivity.
Qed.

Lemma parse_log_file_raises (file_name : str) (fh : list str) :
  within_limit fh = false ->
  exists log, parse_log_file file_name fh = (log, Raise ValueError).
Proof.
  intros L. destruct (parse_lines_raises fh [] L) as (t & Ht).
  unfold parse_log_file. rewrite Ht. exists t. reflexivity.
Qed.

(** A run that returns had every line within the limit. *)
Lemma parse_log_file_returns file_name fh log data :
  parse_log_file file_name fh = (log, Ok data) -> within_limit fh = true.
Proof.
  intros H. destruct (within_limit fh) eqn:L; [reflexivity|].
  destruct (parse_log_file_raises file_name fh L) as (t & K). congruence.
Qed.

(** C4, as the code has it.  For every sequence of raw lines whose numeric
    tokens [int()] converts (no status or size of a line the pattern matches
    has more than 4300 digits), the builder returns, without raising, exactly
    the entries of the lines whose stripped text the line pattern matches, in
    the order of those lines and with nothing in the place of the others; each
    line that is not matched leaves one diagnostic, in order; so there are as
    many entries as parsable lines. *)
Theorem parse_log_file_keeps_parsable_lines (file_name : str) (fh : list str) :
  within_limit fh = true ->
  exists log data,
    parse_log_file file_name fh = (log, Ok data) /\
    data = flat_map (fun line => olist (line_entry (strip line))) fh /\
    (forall line, In line fh ->
       (matches_line (strip line) = true <->
        exists e, line_entry (strip line) = Some e)) /\
    length data = length (filter (fun line => matches_line (strip line)) fh) /\
    error_records log =
      map (fun line => diagnostic (strip line))
          (filter (fun line => negb (matches_line (strip line))) fh).
Proof.
  intros L. destruct (parse_log_file_data file_name fh L) as (log & Hp & Hq).
  exists log, (flat_map (fun line => olist (line_entry (strip line))) fh).
  split; [exact Hp|]. split; [reflexivity|]. split; [|split].
  - intros line Hin. unfold within_limit in L. rewrite forallb_forall in L.
    specialize (L line Hin).
    destruct (parse_line_cases (strip line))
      as [(Hm & _ & t' & e & _ & _ & He)|[(Hm & _ & _ & He)|(_ & K & _)]];
      [| |congruence]; rewrite Hm, He; split; eauto; try discriminate.
    intros (e & H). discriminate.
  - apply length_flat_map_olist. exact L.
  - exact Hq.
Qed.

(** An entry of the collection comes from a line of the input. *)
Lemma parse_log_file_entry file_name fh log data e :
  parse_log_file file_name fh = (log, Ok data) -> In e data ->
  exists line, In line fh /\ line_entry (strip line) = Some e.
Proof.
  intros H Hin.
  destruct (parse_log_file_data file_name fh (parse_log_file_returns _ _ _ _ H))
    as (log' & H' & _).
  rewrite H in H'. injection H' as E1 E2.
  rewrite E2 in Hin. apply in_flat_map in Hin.
  destruct Hin as (line & Hl & He). exists line. split; [assumption|].
  destruct (line_entry (strip line)) as [e'|]; simpl in He; [|contradiction].
  destruct He as [->|[]]. reflexivity.
Qed.

(** C6.  Every entry of the collection of a run comes from a line whose
    stripped text is, from its first to its last character, the nine fields
    of the line pattern with their separators; its [response] and [bytes]
    are the non-negative integers their tokens decode to; and its
    [system_agent] is a string, not empty, which is ["Unknown"] when neither
    heuristic matched the user agent. *)
Theorem log_entry_invariants file_name fh log data e :
  parse_log_file file_name fh = (log, Ok data) -> In e data ->
  exists line ip tm req status size ref ua sa,
    In line fh /\
    strip line = log_line_text ip tm req status size ref ua /\
    matches_line (strip line) = true /\
    fields_ok ip tm req status size ref ua /\
    parse_int status = Ok (response e) /\ (0 <= response e)%Z /\
    parse_int size = Ok (bytes e) /\ (0 <= bytes e)%Z /\
    user_agent e = ua /\
    system_agent e = Some sa /\ sa <> [] /\
    (re_match MOBILE_UA_RE ua = None -> re_match DESKTOP_UA_RE ua = None ->
     sa = lit "Unknown").
Proof.
  intros H Hin.
  destruct (parse_log_file_entry _ _ _ _ _ H Hin) as (line & Hl & He).
  unfold line_entry in He.
  destruct (re_search REGEX (strip line)) as [mt|] eqn:E.
  - pose proof E as E'. apply parse_line_match in E';
      [|destruct (parse_line (strip line)) as [t0 [r0|y0]] eqn:Hp0;
        [exact (parse_line_returns _ _ _ Hp0)|discriminate]].
    destruct E' as (ip & tm & req & status & size & ref & ua & s1 & t & e' & H').
    decompose [and] H'. clear H'.
    match goal with H : parse_line _ = _ |- _ => rewrite H in He end.
    simpl in He. inversion He; subst e'. clear He.
    destruct (extract_client_information_ok ua) as (t' & sa & Eua & Hsa & Hun).
    match goal with H : extract_client_information ua = (_, Ok (system_agent _)) |- _ =>
      rewrite H in Eua; injection Eua as _ Esa end.
    exists line, ip, tm, req, status, size, ref, ua, sa.
    assert (s1 = []) as ->.
    { match goal with H : _ \/ _ |- _ => destruct H as [->| ->] end;
        [reflexivity|].
      match goal with H : strip line = _ |- _ => apply strip_last in H end.
      vm_compute in *. discriminate. }
    rewrite app_nil_r in *.
    unfold matches_line. rewrite E.
    repeat lazymatch goal with
           | |- fields_ok _ _ _ _ _ _ _ /\ _ => split; [assumption|]
           | |- _ /\ _ => split
           end; auto.
  - rewrite (parse_line_no_match _ E) in He. discriminate.
Qed.

(** ** A line has its fields in one way only *)

Lemma digits_no_space s : digits s -> ~ In SPACE s.
Proof. intros [_ H]. apply forallb_digit_not_In; [reflexivity|assumption]. Qed.

Lemma free_of_not_In x s : free_of x s -> ~ In x s.
Proof. intros [_ H]. apply forallb_not_char_In. assumption. Qed.

Lemma size_no_space s : digits s \/ s = lit "-" -> ~ In SPACE s.
Proof.
  intros [H| ->]; [apply digits_no_space; assumption|].
  simpl. intros [H|[]]. discriminate.
Qed.

Lemma ipv4_no_space ip : is_ipv4_text ip -> ~ In SPACE ip.
Proof.
  intros (a & b & c & d & Ha & Hb & Hc & Hd & ->) Hin.
  repeat (apply in_app_or in Hin; destruct Hin as [Hin|Hin]);
    try (revert Hin; apply digits_no_space; assumption);
    simpl in Hin; destruct Hin as [Hin|[]]; discriminate.
Qed.

Lemma log_line_text_inj ip tm req st sz ref ua s1 ip' tm' req' st' sz' ref' ua' s1' :
  ~ In SPACE ip -> ~ In SPACE ip' ->
  ~ In "]"%char tm -> ~ In "]"%char tm' ->
  ~ In DQUOTE req -> ~ In DQUOTE req' ->
  ~ In SPACE st -> ~ In SPACE st' ->
  ~ In SPACE sz -> ~ In SPACE sz' ->
  ~ In DQUOTE ref -> ~ In DQUOTE ref' ->
  ~ In DQUOTE ua -> ~ In DQUOTE ua' ->
  log_line_text ip tm req st sz ref ua ++ s1 =
  log_line_text ip' tm' req' st' sz' ref' ua' ++ s1' ->
  ip = ip' /\ tm = tm' /\ req = req' /\ st = st' /\ sz = sz' /\ ref = ref' /\
  ua = ua' /\ s1 = s1'.
Proof.
  intros Hip Hip' Htm Htm' Hreq Hreq' Hst Hst' Hsz Hsz' Href Href' Hua Hua' E.
  unfold log_line_text, quoted in E. norm_app_in E.
  apply split_first_unique in E; [|assumption..]. destruct E as [-> E].
  repeat (injection E as E).
  apply split_first_unique in E; [|assumption..]. destruct E as [-> E].
  repeat (injection E as E).
  apply split_first_unique in E; [|assumption..]. destruct E as [-> E].
  repeat (injection E as E).
  apply split_first_unique in E; [|assumption..]. destruct E as [-> E].
  apply split_first_unique in E; [|assumption..]. destruct E as [-> E].
  repeat (injection E as E).
  apply split_first_unique in E; [|assumption..]. destruct E as [-> E].
  repeat (injection E as E).
  apply split_first_unique in E; [|assumption..]. destruct E as [-> E].
  repeat split; assumption.
Qed.

Lemma fields_ok_sep_free ip tm req st sz ref ua :
  fields_ok ip tm req st sz ref ua ->
  ~ In SPACE ip /\ ~ In "]"%char tm /\ ~ In DQUOTE req /\ ~ In SPACE st /\
  ~ In SPACE sz /\ ~ In DQUOTE ref /\ ~ In DQUOTE ua.
Proof.
  intros (Hip & Htm & Hreq & Hst & Hsz & Href & Hua).
  repeat split;
    auto using ipv4_no_space, free_of_not_In, digits_no_space, size_no_space.
Qed.

(** ** Every well-formed line is matched *)

Section Accepts.
Variable n : nat.

Lemma accepts_chr x : accepts n (chr x) [x].
Proof. intros s c. exists x. rewrite Ascii.eqb_refl. auto. Qed.

Lemma accepts_plus_chr p a :
  a <> [] -> forallb p a = true -> accepts n (Plus (Chr p)) a.
Proof. intros Ha Hp s c. apply den_plus_chr_intro; assumption. Qed.

Lemma accepts_digits1 a : digits a -> accepts n digits1 a.
Proof. intros [Ha Hp]. apply accepts_plus_chr; assumption. Qed.

Lemma accepts_seq r1 r2 a1 a2 :
  accepts n r1 a1 -> accepts n r2 a2 -> accepts n (Seq r1 r2) (a1 ++ a2).
Proof.
  intros H1 H2 s c. exists (a2 ++ s), c. rewrite <- app_assoc. split; auto.
Qed.

Lemma den_seq_intro r1 r2 s c s' c' s1 c1 :
  den n r1 s c s' c' -> den n r2 s' c' s1 c1 -> den n (Seq r1 r2) s c s1 c1.
Proof. intros H1 H2. exists s', c'. auto. Qed.

Lemma den_group_intro g r a s c :
  accepts n r a -> den n (Group g r) (a ++ s) c s ((g, a) :: c).
Proof.
  intros H. exists c. split; [apply H|]. rewrite firstn_suffix. reflexivity.
Qed.

Lemma den_chr_intro x s c : den n (chr x) (x :: s) c s c.
Proof. exact (accepts_chr x s c). Qed.

Lemma den_bracket_intro g l r0 r a s c :
  accepts n r0 a ->
  den n (Seqs [chr l; Group g r0; chr r]) (l :: a ++ r :: s) c s ((g, a) :: c).
Proof.
  intros H. cbn [Seqs].
  eapply den_seq_intro; [apply den_chr_intro|].
  eapply den_seq_intro; [apply den_group_intro; exact H|apply den_chr_intro].
Qed.

Lemma den_REMOTE_HOSTNAME_intro g ip s c :
  is_ipv4_text ip -> den n (REMOTE_HOSTNAME_RE g) (ip ++ s) c s ((g, ip) :: c).
Proof.
  intros (a & b & c0 & d & Ha & Hb & Hc & Hd & ->).
  apply den_group_intro. cbn [Seqs lit list_ascii_of_string].
  repeat first [apply accepts_seq | apply accepts_digits1; assumption
               | apply accepts_chr].
Qed.

End Accepts.

Lemma LOG_LINE_PATTERN_den_intro n ip tm req status size ref ua :
  fields_ok ip tm req status size ref ua ->
  den n LOG_LINE_PATTERN (log_line_text ip tm req status size ref ua) [] []
      (line_caps ip tm req status size ref ua).
Proof.
  intros (Hip & [Htm1 Htm2] & [Hreq1 Hreq2] & Hst & Hsz & [Href1 Href2] & [Hua1 Hua2]).
  unfold LOG_LINE_PATTERN. cbn [join_space].
  unfold log_line_text, quoted, line_caps. norm_app.
  eapply den_seq_intro; [apply den_REMOTE_HOSTNAME_intro; exact Hip|].
  eapply den_seq_intro; [apply den_chr_intro|].
  eapply den_seq_intro; [apply (den_group_intro n 2 _ [_]); apply accepts_chr|].
  eapply den_seq_intro; [apply den_chr_intro|].
  eapply den_seq_intro; [apply (den_group_intro n 3 _ [_]); apply accepts_chr|].
  eapply den_seq_intro; [apply den_chr_intro|].
  eapply den_seq_intro;
    [apply den_bracket_intro; apply accepts_plus_chr; assumption|].
  eapply den_seq_intro; [apply den_chr_intro|].
  eapply den_seq_intro;
    [apply den_bracket_intro; apply accepts_plus_chr; assumption|].
  eapply den_seq_intro; [apply den_chr_intro|].
  eapply den_seq_intro; [apply den_group_intro; apply accepts_digits1; exact Hst|].
  eapply den_seq_intro; [apply den_chr_intro|].
  eapply den_seq_intro.
  { apply den_group_intro. destruct Hsz as [Hsz| ->]; intros s c.
    - left. apply accepts_digits1. exact Hsz.
    - right. apply accepts_chr. }
  eapply den_seq_intro; [apply den_chr_intro|].
  eapply den_seq_intro;
    [apply den_bracket_intro; apply accepts_plus_chr; assumption|].
  eapply den_seq_intro; [apply den_chr_intro|].
  apply (den_bracket_intro n 9 DQUOTE _ DQUOTE ua []).
  apply accepts_plus_chr; assumption.
Qed.

Lemma REGEX_den_intro ip tm req status size ref ua :
  fields_ok ip tm req status size ref ua ->
  let line := log_line_text ip tm req status size ref ua in
  den (length line) REGEX line [] [] (line_caps ip tm req status size ref ua).
Proof.
  intros Hok line. unfold REGEX.
  apply den_seq_intro with (s' := line) (c' := []);
    [simpl; auto|].
  apply den_seq_intro
    with (s' := []) (c' := line_caps ip tm req status size ref ua);
    [|simpl; auto].
  apply LOG_LINE_PATTERN_den_intro. exact Hok.
Qed.

(** For fields that do not contain their own separators, the line is
    matched exactly when the fields are well-formed. *)
Lemma matches_line_fields ip tm req st sz ref ua :
  ~ In SPACE ip -> ~ In "]"%char tm -> ~ In DQUOTE req -> ~ In SPACE st ->
  ~ In SPACE sz -> ~ In DQUOTE ref -> ~ In DQUOTE ua ->
  matches_line (log_line_text ip tm req st sz ref ua) = true ->
  fields_ok ip tm req st sz ref ua.
Proof.
  intros Hip Htm Hreq Hst Hsz Href Hua H. unfold matches_line in H.
  destruct (re_search REGEX _) as [mt|] eqn:E; [|discriminate].
  apply parse_line_match_cases in E.
  destruct E as (ip' & tm' & req' & st' & sz' & ref' & ua' & s1 & Hok & E & _).
  destruct (fields_ok_sep_free _ _ _ _ _ _ _ Hok)
    as (Hip' & Htm' & Hreq' & Hst' & Hsz' & Href' & Hua').
  rewrite <- (app_nil_r (log_line_text ip tm req st sz ref ua)) in E.
  apply log_line_text_inj in E; try assumption.
  destruct E as (-> & -> & -> & -> & -> & -> & -> & _). exact Hok.
Qed.

Lemma fields_ok_matches_line ip tm req st sz ref ua :
  fields_ok ip tm req st sz ref ua ->
  matches_line (log_line_text ip tm req st sz ref ua) = true.
Proof.
  intros Hok. unfold matches_line.
  pose proof (REGEX_den_intro _ _ _ _ _ _ _ Hok) as D. cbv zeta in D.
  apply re_search_complete in D.
  destruct (re_search REGEX _); [reflexivity|congruence].
Qed.

(** A well-formed line, with numeric tokens that [int()] converts, becomes
    the entry of its fields. *)
Lemma parse_line_well_formed ip tm req st sz ref ua :
  fields_ok ip tm req st sz ref ua ->
  length st <= int_max_str_digits -> length sz <= int_max_str_digits ->
  exists t e,
    parse_line (log_line_text ip tm req st sz ref ua) = (t, Ok (Some e)) /\
    remote_ip e = ip /\ time e = tm /\ request e = req /\ referrer e = ref /\
    user_agent e = ua /\
    parse_int st = Ok (response e) /\ parse_int sz = Ok (bytes e).
Proof.
  intros Hok Lst Lsz. pose proof (fields_ok_matches_line _ _ _ _ _ _ _ Hok) as Hm.
  unfold matches_line in Hm.
  destruct (re_search REGEX _) as [mt|] eqn:E; [|discriminate].
  apply parse_line_match_cases in E.
  destruct E as (ip' & tm' & req' & st' & sz' & ref' & ua' & s1 & Hok' & E & _ & _ & H).
  destruct (fields_ok_sep_free _ _ _ _ _ _ _ Hok)
    as (Hip & Htm & Hreq & Hst & Hsz & Href & Hua).
  destruct (fields_ok_sep_free _ _ _ _ _ _ _ Hok')
    as (Hip' & Htm' & Hreq' & Hst' & Hsz' & Href' & Hua').
  rewrite <- (app_nil_r (log_line_text ip tm req st sz ref ua)) in E.
  apply log_line_text_inj in E; try assumption.
  destruct E as (<- & <- & <- & <- & <- & <- & <- & <-).
  destruct H as [(_ & _ & t & e & H)|(K & _)]; [|lia].
  decompose [and] H.
  exists t, e. repeat split; assumption.
Qed.

Lemma not_matched_is_skipped line :
  matches_line line = false -> parse_line line = ([diagnostic line], Ok None).
Proof.
  intros H.
  destruct (parse_line_cases line) as [(Hm & _)|[(_ & _ & Hp & _)|(Hm & _)]];
    [congruence|assumption|congruence].
Qed.

Lemma digits_dash_false : ~ digits (lit "-").
Proof. intros [_ H]. vm_compute in H. discriminate. Qed.

(** C2, as the code has it.  The status pattern takes digits only: a line
    whose other fields are well-formed and whose status is [-] is not
    matched, and is skipped with a diagnostic.  The token [-] is taken in the
    bytes position, where it decodes to 0: a well-formed line with [-] for
    its size, and a status that [int()] converts (at most 4300 digits),
    becomes an entry with 0 bytes. *)
Theorem dash_status_is_rejected ip tm req status size ref ua :
  fields_ok ip tm req status size ref ua ->
  length status <= int_max_str_digits ->
  parse_line (log_line_text ip tm req (lit "-") size ref ua) =
    ([diagnostic (log_line_text ip tm req (lit "-") size ref ua)], Ok None) /\
  parse_int (lit "-") = Ok 0%Z /\
  exists t e,
    parse_line (log_line_text ip tm req status (lit "-") ref ua) = (t, Ok (Some e)) /\
    bytes e = 0%Z /\ parse_int status = Ok (response e).
Proof.
  intros Hok Lst.
  destruct (fields_ok_sep_free _ _ _ _ _ _ _ Hok)
    as (Hip & Htm & Hreq & Hst & Hsz & Href & Hua).
  destruct Hok as (Kip & Ktm & Kreq & Kst & Ksz & Kref & Kua).
  split; [|split; [reflexivity|]].
  - apply not_matched_is_skipped.
    destruct (matches_line _) eqn:E; [|reflexivity].
    apply matches_line_fields in E; try assumption.
    + destruct E as (_ & _ & _ & Hd & _). destruct (digits_dash_false Hd).
    + apply size_no_space. right; reflexivity.
  - destruct (parse_line_well_formed ip tm req status (lit "-") ref ua)
      as (t & e & Hp & _ & _ & _ & _ & _ & Hr & Hb).
    { unfold fields_ok. auto 10. }
    { exact Lst. }
    { unfold int_max_str_digits. simpl. lia. }
    exists t, e. split; [exact Hp|]. split; [|exact Hr].
    rewrite parse_int_dash in Hb. congruence.
Qed.

Lemma free_of_nil_false x : ~ free_of x [].
Proof. intros [H _]. congruence. Qed.

(** C10.  When the other fields are well-formed, a line whose quoted
    request, referrer or user agent is empty is not matched by the line
    pattern; and in every entry that [parse_line] produces, [request],
    [referrer] and [user_agent] are non-empty. *)
Theorem empty_quoted_fields_are_rejected ip tm req status size ref ua line t e :
  fields_ok ip tm req status size ref ua ->
  parse_line line = (t, Ok (Some e)) ->
  (parse_line (log_line_text ip tm [] status size ref ua) =
     ([diagnostic (log_line_text ip tm [] status size ref ua)], Ok None) /\
   parse_line (log_line_text ip tm req status size [] ua) =
     ([diagnostic (log_line_text ip tm req status size [] ua)], Ok None) /\
   parse_line (log_line_text ip tm req status size ref []) =
     ([diagnostic (log_line_text ip tm req status size ref [])], Ok None)) /\
  request e <> [] /\ referrer e <> [] /\ user_agent e <> [].
Proof.
  intros Hok Hp.
  destruct (fields_ok_sep_free _ _ _ _ _ _ _ Hok)
    as (Hip & Htm & Hreq & Hst & Hsz & Href & Hua).
  split.
  - repeat split; apply not_matched_is_skipped;
      (destruct (matches_line _) eqn:E; [|reflexivity]);
      apply matches_line_fields in E; try assumption; try (intros []);
      destruct E as (_ & _ & K1 & _ & _ & K2 & K3);
      first [destruct (free_of_nil_false _ K1) | destruct (free_of_nil_false _ K2)
            | destruct (free_of_nil_false _ K3)].
  - destruct (parse_line_cases line) as [(Hm & _)|[(_ & _ & Hn & _)|(_ & _ & Hn & _)]];
      [|rewrite Hn in Hp; discriminate|rewrite Hn in Hp; discriminate].
    unfold matches_line in Hm.
    destruct (re_search REGEX line) as [mt|] eqn:E; [|discriminate].
    apply parse_line_match in E; [|exact (parse_line_returns _ _ _ Hp)].
    destruct E as (ip' & tm' & req' & st' & sz' & ref' & ua' & s1 & t' & e' & Hok' & _ & _ & H).
    decompose [and] H. clear H.
    match goal with H : parse_line line = (t', _) |- _ => rewrite H in Hp end.
    injection Hp as _ <-.
    destruct Hok' as (_ & _ & [K1 _] & _ & _ & [K2 _] & [K3 _]).
    repeat split; congruence.
Qed.

(** ** The request decomposer *)

Lemma METHOD_REGEX_den n request s1 c1 :
  den n METHOD_REGEX request [] s1 c1 ->
  exists mth u p,
    request = mth ++ lit " " ++ u ++ lit " " ++ p ++ s1 /\
    (s1 = [] \/ s1 = [NEWLINE]) /\
    mth <> [] /\ forallb is_upper mth = true /\
    free_of SPACE u /\ forallb (not_char NEWLINE) p = true /\
    c1 = [(3, p); (2, u); (1, mth)].
Proof.
  unfold METHOD_REGEX. cbn [Seqs]. intros D. cbn [den] in D.
  destruct D as (? & ? & (_ & -> & ->) & ? & ? & D1 & ? & ? & S1 & ? & ? & D2 &
                 ? & ? & S2 & ? & ? & D3 & (HE & -> & ->)).
  apply (captures_group n 1 _ _ (consumes_plus_chr n is_upper)) in D1.
  destruct D1 as (mth & [Hm1 Hm2] & -> & ->).
  apply den_chr in S1. destruct S1 as [-> ->].
  apply (captures_group n 2 _ _ (consumes_plus_chr n (not_char SPACE))) in D2.
  destruct D2 as (u & Hu & -> & ->).
  apply den_chr in S2. destruct S2 as [-> ->].
  apply (captures_group n 3 _ _ (consumes_star_chr n (not_char NEWLINE))) in D3.
  destruct D3 as (p & Hp & -> & ->).
  exists mth, u, p. repeat split; auto; try apply Hu.
Qed.

(** C9, as the code has it.  When the decomposer gives a method, a url and
    a protocol, joining them with single spaces gives back the request, or
    the request without its final newline when it ends in one ([$] also
    matches just before a final newline, and [.] does not take it); a request
    without newline is given back exactly.  The url has no space and the
    method is made of upper-case ASCII letters. *)
Theorem request_split_is_lossless_up_to_final_newline request mth u p :
  extract_method_and_url request = (Some mth, Some u, Some p) ->
  let joined := mth ++ lit " " ++ u ++ lit " " ++ p in
  (request = joined \/ request = joined ++ [NEWLINE]) /\
  (~ In NEWLINE request -> request = joined) /\
  u <> [] /\ ~ In SPACE u /\
  mth <> [] /\ forallb is_upper mth = true /\
  ~ In NEWLINE p.
Proof.
  intros H joined. unfold extract_method_and_url in H.
  destruct (re_search METHOD_REGEX request) as [c|] eqn:E; [|discriminate].
  unfold METHOD_REGEX in E. cbn [Seqs] in E.
  apply re_search_Bol_sound in E. destruct E as (s1 & D).
  apply (METHOD_REGEX_den _ _ _ _) in D.
  destruct D as (mth' & u' & p' & E & Hs1 & Hm1 & Hm2 & [Hu1 Hu2] & Hp & ->).
  cbn [group Nat.eqb] in H. injection H as -> -> ->.
  assert (Ej : request = joined ++ s1).
  { rewrite E. unfold joined. repeat rewrite <- app_assoc. reflexivity. }
  repeat split; auto.
  - destruct Hs1 as [->| ->]; [left|right]; rewrite Ej, ?app_nil_r; reflexivity.
  - intros Hnl. destruct Hs1 as [->| ->]; [rewrite Ej, app_nil_r; reflexivity|].
    exfalso. apply Hnl. rewrite Ej. apply in_or_app. right. left. reflexivity.
  - apply forallb_not_char_In. exact Hu2.
  - apply forallb_not_char_In. exact Hp.
Qed.

(** ** The client classifier: mobile first *)

(** C5.  A user agent that both heuristics match is labelled by the mobile
    one: the label is the first group of the mobile match, a non-empty
    string, whatever the desktop heuristic would have given. *)
Theorem mobile_heuristic_wins ua cm cd :
  re_match MOBILE_UA_RE ua = Some cm ->
  re_match DESKTOP_UA_RE ua = Some cd ->
  extract_client_information ua = ([], Ok (group 1 cm)) /\
  exists label, group 1 cm = Some label /\ label <> [].
Proof.
  intros Hm _. unfold extract_client_information. rewrite Hm.
  split; [reflexivity|].
  apply first_group_nonempty in Hm; [exact Hm|reflexivity].
Qed.

(** ** Counting in a dictionary *)

Section DictFacts.
Context {K : Type} `{Key K}.
Hypothesis key_eqb_eq : forall a b : K, key_eqb a b = true <-> a = b.

Lemma keys_incr k (d : dict K Z) x :
  In x (keys (incr k d)) <-> x = k \/ In x (keys d).
Proof.
  unfold incr. induction d as [|[k' v] d IH]; simpl.
  - intuition.
  - destruct (key_eqb k k') eqn:E; simpl.
    + apply key_eqb_eq in E. subst k'. intuition.
    + rewrite IH. intuition.
Qed.

Lemma incr_NoDup k (d : dict K Z) :
  NoDup (keys d) -> NoDup (keys (incr k d)).
Proof.
  induction d as [|[k' v] d IH]; intros Hd.
  - repeat constructor. intros [].
  - unfold incr in *. simpl. inversion Hd as [|? ? Hn Hd']; subst.
    destruct (key_eqb k k') eqn:E; simpl.
    + assumption.
    + constructor; [|apply IH; assumption].
      intros Hin. apply keys_incr in Hin. destruct Hin as [->|Hin].
      * assert (key_eqb k k = true) by (apply key_eqb_eq; reflexivity).
        congruence.
      * contradiction.
Qed.

End DictFacts.

Lemma total_incr {K} `{Key K} k (d : dict K Z) :
  total (incr k d) = (total d + 1)%Z.
Proof.
  unfold total, incr, values. induction d as [|[k' v] d IH]; simpl.
  - reflexivity.
  - destruct (key_eqb k k'); simpl; [lia|]. rewrite IH. lia.
Qed.

Lemma str_key_eqb_eq (a b : str) : key_eqb a b = true <-> a = b.
Proof. exact (str_eqb_eq a b). Qed.

Lemma opt_str_eqb_eq (a b : option str) : key_eqb a b = true <-> a = b.
Proof.
  destruct a as [x|], b as [y|]; simpl; try (split; congruence).
  rewrite str_eqb_eq. split; congruence.
Qed.

(** ** The hour of a parsed time *)

Lemma datetime_new_hour y mo d h mi s off tm :
  datetime_new y mo d h mi s off = Ok tm -> (0 <= hour tm <= 23)%Z.
Proof.
  unfold datetime_new, between.
  destruct (_ && _) eqn:E; [|discriminate].
  intros H. injection H as <-. simpl.
  repeat (apply andb_prop in E; destruct E as [E ?]). lia.
Qed.

Lemma strptime_hour data_string tm :
  strptime data_string = Ok tm -> (0 <= hour tm <= 23)%Z.
Proof.
  unfold strptime, obind. intros H.
  repeat match type of H with
         | match ?x with _ => _ end = _ => destruct x eqn:?; try discriminate
         end.
  eapply datetime_new_hour; eassumption.
Qed.

Lemma format_02d_two_digits h :
  (0 <= h <= 24)%Z -> format_02d h = two_digits h.
Proof.
  intros Hh. rewrite <- (Z2Nat.id h) by lia.
  assert (Hk : Z.to_nat h < 25) by lia.
  generalize dependent (Z.to_nat h). intros k Hk.
  do 25 (destruct k as [|k]; [reflexivity|]). lia.
Qed.

Lemma time_bucket_label tm :
  (0 <= hour tm <= 23)%Z -> time_bucket tm = hour_label (hour tm).
Proof.
  intros Hh. unfold time_bucket, hour_label.
  rewrite !format_02d_two_digits by lia. reflexivity.
Qed.

(** ** The aggregation loop *)

Lemma count_entry_ok st e st' :
  count_entry st e = Ok st' ->
  exists tm,
    strptime (time e) = Ok tm /\
    hits_per_page st' = incr (url e) (hits_per_page st) /\
    hits_per_response st' = incr (response e) (hits_per_response st) /\
    hits_per_os st' = incr (system_agent e) (hits_per_os st) /\
    hits_per_time st' = incr (time_bucket tm) (hits_per_time st) /\
    keys (bytes_per_ip st') =
      keys (dict_update 0%float (fun v => v) (remote_ip e) (bytes_per_ip st)).
Proof.
  unfold count_entry, obind. intros H.
  destruct (int_truediv (bytes e) 1024) as [kb|]; [|discriminate].
  destruct (num_truediv (F kb) (I 1024)) as [mb|]; [|discriminate].
  destruct (strptime (time e)) as [tm|]; [|discriminate].
  injection H as <-. exists tm. cbn. repeat split; auto.
  generalize (bytes_per_ip st). intros d.
  induction d as [|[k v] d IH]; cbn; [reflexivity|].
  destruct (str_eqb (remote_ip e) k); cbn; [reflexivity|].
  unfold keys in IH. rewrite IH. reflexivity.
Qed.

(** An entry whose time does not parse stops the loop. *)
Lemma count_entry_bad_time st e x :
  strptime (time e) = Raise x -> exists y, count_entry st e = Raise y.
Proof.
  intros Hx. unfold count_entry, obind.
  destruct (int_truediv (bytes e) 1024) as [kb|]; [|eauto].
  destruct (num_truediv (F kb) (I 1024)) as [mb|]; [|eauto].
  rewrite Hx. eauto.
Qed.

Lemma count_entries_bad_time : forall data st e x,
  In e data -> strptime (time e) = Raise x ->
  exists y, count_entries st data = Raise y.
Proof.
  induction data as [|e0 data IH]; intros st e x Hin Hx; [destruct Hin|].
  simpl. destruct Hin as [->|Hin].
  - destruct (count_entry_bad_time st e x Hx) as (y & ->). simpl. eauto.
  - destruct (count_entry st e0) as [st'|y]; simpl; [|eauto].
    eapply IH; eassumption.
Qed.

(** What the loop leaves in the five mappings. *)
Lemma count_entries_spec : forall data st0 st,
  count_entries st0 data = Ok st ->
  (forall key, In key (keys (hits_per_time st)) <->
     In key (keys (hits_per_time st0)) \/
     exists e tm, In e data /\ strptime (time e) = Ok tm /\
                  key = hour_label (hour tm)) /\
  (NoDup (keys (hits_per_time st0)) -> NoDup (keys (hits_per_time st))) /\
  total (hits_per_page st) = (total (hits_per_page st0) + Z.of_nat (length data))%Z /\
  total (hits_per_response st) = (total (hits_per_response st0) + Z.of_nat (length data))%Z /\
  total (hits_per_os st) = (total (hits_per_os st0) + Z.of_nat (length data))%Z /\
  total (hits_per_time st) = (total (hits_per_time st0) + Z.of_nat (length data))%Z /\
  (forall e, In e data -> In (remote_ip e) (keys (bytes_per_ip st))) /\
  (forall ip, In ip (keys (bytes_per_ip st0)) -> In ip (keys (bytes_per_ip st))).
Proof.
  induction data as [|e data IH]; intros st0 st H; simpl in H.
  - injection H as <-. simpl. repeat split; auto; try lia.
    intros [Hk|(e & tm & [] & _)]; assumption.
  - destruct (count_entry st0 e) as [st1|] eqn:E1; simpl in H; [|discriminate].
    apply count_entry_ok in E1.
    destruct E1 as (tm & Etm & Ep & Er & Eo & Et & Eb).
    apply IH in H.
    destruct H as (Hkeys & Hnd & Tp & Tr & To & Tt & Hip & Hmono).
    pose proof (strptime_hour _ _ Etm) as Hh.
    assert (Hin1 : forall ip, In ip (keys (bytes_per_ip st1)) <->
                              ip = remote_ip e \/ In ip (keys (bytes_per_ip st0))).
    { intros ip. rewrite Eb. generalize (bytes_per_ip st0). intros d.
      induction d as [|[k v] d IHd]; cbn; [intuition|].
      destruct (str_eqb (remote_ip e) k) eqn:Ek; cbn.
      - apply str_eqb_eq in Ek. subst k. intuition.
      - unfold keys in IHd. rewrite IHd. intuition. }
    repeat split.
    + intros Hk. apply Hkeys in Hk. destruct Hk as [Hk|(e' & tm' & Hin & Ht & ->)].
      * rewrite Et in Hk. apply (keys_incr str_key_eqb_eq) in Hk.
        destruct Hk as [->|Hk]; [|left; assumption].
        right. exists e, tm. split; [left; reflexivity|].
        split; [assumption|]. apply time_bucket_label. assumption.
      * right. exists e', tm'. split; [right; assumption|]. auto.
    + intros [Hk|(e' & tm' & [->|Hin] & Ht & ->)]; apply Hkeys.
      * left. rewrite Et. apply (keys_incr str_key_eqb_eq). right. assumption.
      * left. rewrite Et. apply (keys_incr str_key_eqb_eq). left.
        rewrite Etm in Ht. injection Ht as <-. symmetry.
        apply time_bucket_label. assumption.
      * right. exists e', tm'. auto.
    + intros Hd. apply Hnd. rewrite Et. apply (incr_NoDup str_key_eqb_eq). assumption.
    + rewrite Tp, Ep, total_incr. cbn [length]. lia.
    + rewrite Tr, Er, total_incr. cbn [length]. lia.
    + rewrite To, Eo, total_incr. cbn [length]. lia.
    + rewrite Tt, Et, total_incr. cbn [length]. lia.
    + intros e' [->|Hin]; [|apply Hip; assumption].
      apply Hmono. apply Hin1. left. reflexivity.
    + intros ip Hin. apply Hmono. apply Hin1. right. assumption.
Qed.

Lemma hour_label_23 : hour_label 23 = lit "23:00-24:00".
Proof. reflexivity. Qed.


(** ** [sorted] sorts *)

Section SortFacts.
Variable A : Type.
Variable le : A -> A -> bool.
Variable f : A -> Z.
Variable dom : A -> Prop.
Hypothesis le_spec : forall x y, dom x -> dom y -> le x y = (f x <=? f y)%Z.

Lemma insert_sorted_perm x l : Permutation (insert_sorted le x l) (x :: l).
Proof.
  induction l as [|y l IH]; simpl; [reflexivity|].
  destruct (le x y); [reflexivity|].
  rewrite IH. apply perm_swap.
Qed.

Lemma sorted_by_perm l : Permutation (sorted_by le l) l.
Proof.
  induction l as [|x l IH]; simpl; [reflexivity|].
  rewrite insert_sorted_perm. constructor. assumption.
Qed.

Lemma insert_sorted_Sorted x l :
  dom x -> Forall dom l -> Sorted (le_by f) l -> Sorted (le_by f) (insert_sorted le x l).
Proof.
  intros Hx Hl Hs. induction l as [|y l IH]; simpl.
  - repeat constructor.
  - inversion Hl as [|? ? Hy Hl']; subst.
    inversion Hs as [|? ? Hs' Hhd]; subst.
    rewrite (le_spec x y Hx Hy).
    destruct (f x <=? f y)%Z eqn:E.
    + apply Z.leb_le in E. constructor; [assumption|]. constructor. exact E.
    + apply Z.leb_gt in E. constructor; [apply IH; assumption|].
      destruct l as [|z l]; simpl.
      * constructor. unfold le_by. lia.
      * inversion Hl' as [|? ? Hz _]; subst.
        rewrite (le_spec x z Hx Hz).
        destruct (f x <=? f z)%Z; constructor.
        -- unfold le_by. lia.
        -- inversion Hhd; assumption.
Qed.

Lemma sorted_by_Sorted l : Forall dom l -> Sorted (le_by f) (sorted_by le l).
Proof.
  induction l as [|x l IH]; intros Hl; simpl; [constructor|].
  inversion Hl as [|? ? Hx Hl']; subst.
  apply insert_sorted_Sorted; [assumption| |apply IH; assumption].
  apply Forall_forall. intros y Hy.
  rewrite Forall_forall in Hl'. apply Hl'.
  apply (Permutation_in _ (sorted_by_perm l)). assumption.
Qed.

End SortFacts.

(** ** The labels sort as their hours *)

Lemma hour_cases (P : Z -> Prop) :
  (forall k, (k < 24)%nat -> P (Z.of_nat k)) ->
  forall h, (0 <= h <= 23)%Z -> P h.
Proof.
  intros HP h Hh. rewrite <- (Z2Nat.id h) by lia. apply HP. lia.
Qed.

Lemma label_hour_label h : (0 <= h <= 23)%Z -> label_hour (hour_label h) = h.
Proof.
  revert h. apply hour_cases. intros k Hk.
  do 24 (destruct k as [|k]; [reflexivity|]). lia.
Qed.

Lemma str_leb_hour_label h1 h2 :
  (0 <= h1 <= 23)%Z -> (0 <= h2 <= 23)%Z ->
  str_leb (hour_label h1) (hour_label h2) = (h1 <=? h2)%Z.
Proof.
  revert h1. apply (hour_cases (fun h1 => (0 <= h2 <= 23)%Z -> _ = _)).
  intros k1 Hk1. revert h2. apply hour_cases. intros k2 Hk2.
  assert (E : forallb (fun a => forallb (fun b =>
                Bool.eqb (str_leb (hour_label (Z.of_nat a)) (hour_label (Z.of_nat b)))
                         (Z.of_nat a <=? Z.of_nat b)%Z) (seq 0 24)) (seq 0 24) = true)
    by (vm_compute; reflexivity).
  rewrite forallb_forall in E.
  assert (H1 : In k1 (seq 0 24)) by (apply in_seq; lia).
  apply E in H1. rewrite forallb_forall in H1.
  assert (H2 : In k2 (seq 0 24)) by (apply in_seq; lia).
  apply H1 in H2. apply Bool.eqb_prop in H2. exact H2.
Qed.

Lemma bind_Ok_inv {A B} (x : M A) (f : A -> M B) out b :
  bind x f = (out, Ok b) ->
  exists t a t', x = (t, Ok a) /\ f a = (t', Ok b) /\ out = t ++ t'.
Proof.
  unfold bind. destruct x as [t [a|e]]; [|discriminate].
  destruct (f a) as [t' r] eqn:E. intros H. injection H as <- ->.
  exists t, a, t'. auto.
Qed.

Lemma Sorted_map_le {A} (f : A -> Z) l :
  Sorted (le_by f) l -> StronglySorted Z.le (map f l).
Proof.
  intros H. apply Sorted_StronglySorted; [intros x y z; lia|].
  induction H as [|x l Hs IH Hhd]; simpl; constructor; [assumption|].
  destruct Hhd; simpl; constructor. assumption.
Qed.

Lemma StronglySorted_le_lt l :
  StronglySorted Z.le l -> NoDup l -> StronglySorted Z.lt l.
Proof.
  induction 1 as [|x l Hs IH Hall]; intros Hnd; constructor;
    inversion Hnd as [|? ? Hnin Hnd']; subst.
  - apply IH. assumption.
  - rewrite Forall_forall in *. intros y Hy.
    pose proof (Hall y Hy). assert (x <> y) by (intros ->; contradiction). lia.
Qed.

Lemma keys_ints {K} (d : dict K Z) : keys (ints d) = keys d.
Proof.
  unfold keys, ints. rewrite map_map. apply map_ext. reflexivity.
Qed.

(** C8.  The mapping handed to the bar renderer for the hours is the
    hour-bucket mapping sorted by key: its keys are the labels of a strictly
    ascending sequence of hours, and the lines that [get_stats] writes
    contain the renderer's output for that sorted mapping. *)
Theorem hour_buckets_sorted_for_display data st :
  count_entries no_stats data = Ok st ->
  exists hours,
    keys (ints (sorted_hits_per_time st)) = map hour_label hours /\
    StronglySorted Z.lt hours /\
    Forall (fun h => (0 <= h <= 23)%Z) hours /\
    Permutation (sorted_hits_per_time st) (hits_per_time st) /\
    (forall out, get_stats data = (out, Ok tt) ->
       exists out1 out2,
         out = out1 ++ fst (Graph_display (ints (sorted_hits_per_time st))
                              (lit "Hits per time range") (lit "hits") true None)
                   ++ out2).
Proof.
  intros H. pose proof H as Hspec. apply count_entries_spec in Hspec.
  destruct Hspec as (Hkeys & Hnd & _).
  specialize (Hnd (NoDup_nil _)).
  set (d := hits_per_time st) in *.
  set (f := fun kv : str * Z => label_hour (fst kv)).
  assert (Hd : Forall is_hour_key d).
  { apply Forall_forall. intros [k v] Hin.
    assert (Hk : In k (keys d)) by (apply (in_map fst) in Hin; exact Hin).
    apply Hkeys in Hk. destruct Hk as [[]|(e & tm & _ & Ht & ->)].
    exists (hour tm). split; [apply (strptime_hour _ _ Ht)|reflexivity]. }
  assert (Hle : forall x y, is_hour_key x -> is_hour_key y ->
                            by_key x y = (f x <=? f y)%Z).
  { intros x y (h1 & R1 & E1) (h2 & R2 & E2). unfold by_key, f.
    rewrite E1, E2, str_leb_hour_label, !label_hour_label by assumption.
    reflexivity. }
  pose proof (sorted_by_perm _ by_key d) as Hperm.
  pose proof (sorted_by_Sorted _ by_key f is_hour_key Hle d Hd) as Hsorted.
  fold (sorted_hits_per_time st) in Hperm, Hsorted.
  assert (Hs : Forall is_hour_key (sorted_hits_per_time st)).
  { apply Forall_forall. intros x Hx. rewrite Forall_forall in Hd. apply Hd.
    apply (Permutation_in _ Hperm). assumption. }
  assert (Ekeys : keys (sorted_hits_per_time st)
                  = map hour_label (map f (sorted_hits_per_time st))).
  { unfold keys. rewrite map_map. apply map_ext_in. intros x Hx.
    rewrite Forall_forall in Hs. destruct (Hs x Hx) as (h & R1 & E1).
    unfold f. rewrite E1, label_hour_label by assumption. reflexivity. }
  exists (map f (sorted_hits_per_time st)).
  split; [rewrite keys_ints; exact Ekeys|].
  split.
  { apply StronglySorted_le_lt; [apply Sorted_map_le; exact Hsorted|].
    apply (NoDup_map_inv hour_label). rewrite <- Ekeys.
    apply (Permutation_NoDup (l := keys d)); [|assumption].
    unfold keys. apply Permutation_map. symmetry. assumption. }
  split.
  { apply Forall_forall. intros h Hh. apply in_map_iff in Hh.
    destruct Hh as (x & <- & Hx).
    rewrite Forall_forall in Hs. destruct (Hs x Hx) as (h & R1 & E1).
    unfold f. rewrite E1, label_hour_label by assumption. assumption. }
  split; [exact Hperm|].
  intros out Hout. unfold get_stats in Hout. rewrite H, bind_lift_ok in Hout.
  apply bind_Ok_inv in Hout. destruct Hout as (t1 & [] & r1 & _ & Hout & ->).
  apply bind_Ok_inv in Hout. destruct Hout as (t2 & [] & r2 & _ & Hout & ->).
  apply bind_Ok_inv in Hout. destruct Hout as (t3 & [] & r3 & _ & Hout & ->).
  apply bind_Ok_inv in Hout. destruct Hout as (t4 & [] & r4 & _ & Hout & ->).
  cbv zeta in Hout.
  apply bind_Ok_inv in Hout. destruct Hout as (t5 & [] & r5 & Hg & Hout & ->).
  rewrite Hg. cbn [fst].
  exists (t1 ++ t2 ++ t3 ++ t4), r5. repeat rewrite <- app_assoc. reflexivity.
Qed.

(** ** A time that does not parse *)

(** C1, as the code has it.  The [ValueError] of [strptime] is not caught:
    when the time of some entry does not parse, [get_stats] raises inside
    its loop, before it writes anything, and no mapping is reported. *)
Theorem unparsable_time_aborts_the_run data e x :
  In e data -> strptime (time e) = Raise x ->
  (exists y, get_stats data = ([], Raise y)) /\
  (exists y, count_entries no_stats data = Raise y).
Proof.
  intros Hin Hx.
  destruct (count_entries_bad_time data no_stats e x Hin Hx) as (y & Hy).
  split; exists y; [|exact Hy].
  unfold get_stats. rewrite Hy. reflexivity.
Qed.

(** When the loop completes, every entry has been counted in each of the
    five mappings, the hour buckets included. *)
Lemma count_entries_counts_every_entry data st :
  count_entries no_stats data = Ok st ->
  total (hits_per_page st) = Z.of_nat (length data) /\
  total (hits_per_response st) = Z.of_nat (length data) /\
  total (hits_per_os st) = Z.of_nat (length data) /\
  total (hits_per_time st) = Z.of_nat (length data) /\
  (forall e, In e data -> In (remote_ip e) (keys (bytes_per_ip st))).
Proof.
  intros H. apply count_entries_spec in H.
  destruct H as (_ & _ & Tp & Tr & To & Tt & Hip & _).
  cbn in Tp, Tr, To, Tt. repeat split; assumption.
Qed.

(** ** The bar graph *)

Lemma lift_Ok_inv {A} (o : outcome A) t a :
  lift o = (t, Ok a) -> o = Ok a /\ t = [].
Proof. unfold lift. intros H. injection H as <- ->. auto. Qed.

Lemma bar_row_Ok {K} `{Key K} unit sum_values max_value width (kv : K * num) t :
  bar_row unit true sum_values max_value width kv = (t, Ok tt) ->
  exists row, t = [row] /\ is_bar_row unit sum_values max_value width kv row.
Proof.
  destruct kv as [key value]. unfold bar_row. intros Hb.
  apply bind_Ok_inv in Hb. destruct Hb as (t1 & v100 & r1 & H1 & Hb & ->).
  apply lift_Ok_inv in H1. destruct H1 as [H1 ->].
  apply bind_Ok_inv in Hb. destruct Hb as (t2 & bs & r2 & H2 & Hb & ->).
  apply lift_Ok_inv in H2. destruct H2 as [H2 ->].
  apply bind_Ok_inv in Hb. destruct Hb as (t3 & bl & r3 & H3 & Hb & ->).
  apply lift_Ok_inv in H3. destruct H3 as [H3 ->].
  apply bind_Ok_inv in Hb. destruct Hb as (t4 & ps & r4 & H4 & Hb & ->).
  apply bind_Ok_inv in H4. destruct H4 as (t5 & v100' & r5 & H5 & H4 & ->).
  apply lift_Ok_inv in H5. destruct H5 as [H5 ->].
  apply bind_Ok_inv in H4. destruct H4 as (t6 & pc & r6 & H6 & H4 & ->).
  apply lift_Ok_inv in H6. destruct H6 as [H6 ->].
  unfold ret in H4. injection H4 as <- <-.
  unfold emit in Hb. injection Hb as <-.
  rewrite H1 in H5. injection H5 as <-.
  eexists. split; [reflexivity|].
  exists v100, bs, bl, pc. cbn [fst snd]. auto.
Qed.

Lemma for_each_bar_rows {K} `{Key K} unit sum_values max_value width :
  forall (data : dict K num) out,
    for_each (bar_row unit true sum_values max_value width) data = (out, Ok tt) ->
    Forall2 (is_bar_row unit sum_values max_value width) data out.
Proof.
  induction data as [|kv data IH]; intros out Hf; cbn [for_each] in Hf.
  - unfold ret in Hf. injection Hf as <-. constructor.
  - apply bind_Ok_inv in Hf. destruct Hf as (t & [] & r & Hb & Hf & ->).
    apply bar_row_Ok in Hb. destruct Hb as (row & -> & Hrow).
    simpl. constructor; [assumption|apply IH; assumption].
Qed.

(** The graph without a limit.  The sum that the percentages use is taken
    over the whole mapping.  The graph has one line per entry, in the
    mapping's order: the bar repeats its literal as many times as the integer
    part of the value times 100 over the largest value, and the percentage is
    the value times 100 over the sum of all the values. *)
Theorem Graph_display_rows {K} `{Key K} (data : dict K num) title unit out :
  Graph_display data title unit true None = (out, Ok tt) ->
  exists sum_values max_value width rows,
    py_sum (values data) = Ok sum_values /\
    py_max (values data) = Ok max_value /\
    py_max_nat (map (fun label => length (key_str label)) (keys data)) = Ok width /\
    out = Header title :: rows /\
    Forall2 (is_bar_row unit sum_values max_value width) data rows.
Proof.
  unfold Graph_display, header. intros Hg.
  apply bind_Ok_inv in Hg. destruct Hg as (t0 & [] & r0 & H0 & Hg & ->).
  unfold emit in H0. injection H0 as <-.
  apply bind_Ok_inv in Hg. destruct Hg as (t1 & sv & r1 & H1 & Hg & ->).
  apply lift_Ok_inv in H1. destruct H1 as [H1 ->].
  apply bind_Ok_inv in Hg. destruct Hg as (t2 & d & r2 & H2 & Hg & ->).
  unfold ret in H2. injection H2 as <- <-.
  apply bind_Ok_inv in Hg. destruct Hg as (t3 & mx & r3 & H3 & Hg & ->).
  apply lift_Ok_inv in H3. destruct H3 as [H3 ->].
  apply bind_Ok_inv in Hg. destruct Hg as (t4 & w & r4 & H4 & Hg & ->).
  apply lift_Ok_inv in H4. destruct H4 as [H4 ->].
  apply for_each_bar_rows in Hg.
  exists sv, mx, w, r4. cbn [top_suffix app]. rewrite app_nil_r.
  repeat split; assumption.
Qed.

(** * The properties on sample inputs *)

Lemma sample_fields_ok :
  fields_ok sample_ip sample_time sample_request (lit "200") (lit "203023")
            sample_referrer sample_ua.
Proof.
  repeat split; try discriminate; try reflexivity.
  - exists (lit "83"), (lit "149"), (lit "9"), (lit "216").
    repeat split; try discriminate; reflexivity.
  - left. split; [discriminate|reflexivity].
Defined.

(** C1 on a run whose second entry has a time that does not parse. *)
Lemma unparsable_time_aborts_the_run_witness :
  (exists y, get_stats [late_entry; bad_time_entry; early_entry] = ([], Raise y)) /\
  (exists y, count_entries no_stats [late_entry; bad_time_entry; early_entry] = Raise y).
Proof.
  apply (unparsable_time_aborts_the_run _ bad_time_entry ValueError).
  - simpl. auto.
  - vm_compute. reflexivity.
Defined.

(** C1 as the specification states it fails: with one entry whose time does
    not parse the run raises and writes nothing, while the same entries
    without it are reported. *)
Lemma unparsable_time_is_not_local :
  get_stats [late_entry; bad_time_entry; early_entry] = ([], Raise ValueError) /\
  snd (get_stats [late_entry; early_entry]) = Ok tt.
Proof. split; vm_compute; reflexivity. Qed.

(** C2 on the sample line. *)
Lemma dash_status_is_rejected_witness :
  parse_line dash_status_line = ([diagnostic dash_status_line], Ok None) /\
  parse_int (lit "-") = Ok 0%Z /\
  exists t e,
    parse_line (log_line_text sample_ip sample_time sample_request (lit "200")
                              (lit "-") sample_referrer sample_ua)
      = (t, Ok (Some e)) /\
    bytes e = 0%Z /\ parse_int (lit "200") = Ok (response e).
Proof.
  apply (dash_status_is_rejected sample_ip sample_time sample_request (lit "200")
                                 (lit "203023") sample_referrer sample_ua
                                 sample_fields_ok).
  apply Nat.leb_le. vm_compute. reflexivity.
Defined.

(** C2 as the specification states it fails: the sample line with [-] for
    its status gives no entry. *)
Lemma dash_status_line_is_skipped :
  parse_line dash_status_line = ([diagnostic dash_status_line], Ok None).
Proof. vm_compute. reflexivity. Qed.

(** C4 on the sample file: two of its four lines are parsable. *)
Lemma parse_log_file_keeps_parsable_lines_witness :
  exists log data,
    parse_log_file (lit "access.log") sample_file = (log, Ok data) /\
    data = flat_map (fun line => olist (line_entry (strip line))) sample_file /\
    (forall line, In line sample_file ->
       (matches_line (strip line) = true <->
        exists e, line_entry (strip line) = Some e)) /\
    length data
      = length (filter (fun line => matches_line (strip line)) sample_file) /\
    error_records log =
      map (fun line => diagnostic (strip line))
          (filter (fun line => negb (matches_line (strip line))) sample_file).
Proof.
  apply (parse_log_file_keeps_parsable_lines (lit "access.log") sample_file).
  vm_compute. reflexivity.
Defined.

(** C4 as the specification states it fails: a line that the pattern
    matches, with a status of 4301 digits, is no entry and no diagnostic: the
    run raises, and the entry of the line before it is lost with it. *)
Lemma long_status_aborts_the_run :
  matches_line (strip long_status_line) = true /\
  parse_log_file (lit "access.log") [sample_line; long_status_line; sample_line]
    = ([], Raise ValueError).
Proof. split; vm_compute; reflexivity. Qed.

(** The graph of two response codes, without a limit. *)
Lemma Graph_display_rows_witness :
  exists sum_values max_value width rows,
    py_sum (values sample_hits) = Ok sum_values /\
    py_max (values sample_hits) = Ok max_value /\
    py_max_nat (map (fun label => length (key_str label)) (keys sample_hits))
      = Ok width /\
    fst (Graph_display sample_hits (lit "Demo") (lit "hits") true None)
      = Header (lit "Demo") :: rows /\
    Forall2 (is_bar_row (lit "hits") sum_values max_value width) sample_hits rows.
Proof.
  apply (Graph_display_rows sample_hits (lit "Demo") (lit "hits")).
  vm_compute. reflexivity.
Defined.

(** C3 on two response codes and a limit of one.  The claim has the mapping
    truncated to its first entry and one line shown; the renderer writes the
    title and raises on [data[0:top]], a slice of a dictionary, where its
    documentation promises to limit the number of entries: no line and no
    percentage is shown. *)
Lemma Graph_display_top_raises :
  exists y,
    Graph_display sample_hits (lit "Demo") (lit "hits") true (Some 1%Z)
    = ([Header (lit "Demo - Top 1")], Raise y).
Proof. exists TypeError. vm_compute. reflexivity. Qed.

(** C5 on an iPhone user agent, which also mentions Mac OS X. *)
Lemma mobile_heuristic_wins_witness :
  extract_client_information iphone_ua
    = ([], Ok (group 1 (the [] (re_match MOBILE_UA_RE iphone_ua)))) /\
  exists label,
    group 1 (the [] (re_match MOBILE_UA_RE iphone_ua)) = Some label /\ label <> [].
Proof.
  apply (mobile_heuristic_wins iphone_ua _ (the [] (re_match DESKTOP_UA_RE iphone_ua)));
    vm_compute; reflexivity.
Defined.

Example iphone_labels :
  extract_client_information iphone_ua = ([], Ok (Some (lit "iPhone OS 15_0"))) /\
  group 1 (the [] (re_match DESKTOP_UA_RE iphone_ua)) = Some (lit "Mac OS X").
Proof. split; vm_compute; reflexivity. Qed.

Example curl_is_unknown :
  snd (extract_client_information (lit "curl/7.64.1")) = Ok (Some (lit "Unknown")).
Proof. vm_compute. reflexivity. Qed.

(** C6 on the first entry of the sample file. *)
Lemma log_entry_invariants_witness :
  let run := parse_log_file (lit "access.log") sample_file in
  let e := hd late_entry (result [] (snd run)) in
  exists line ip tm req status size ref ua sa,
    In line sample_file /\
    strip line = log_line_text ip tm req status size ref ua /\
    matches_line (strip line) = true /\
    fields_ok ip tm req status size ref ua /\
    parse_int status = Ok (response e) /\ (0 <= response e)%Z /\
    parse_int size = Ok (bytes e) /\ (0 <= bytes e)%Z /\
    user_agent e = ua /\
    system_agent e = Some sa /\ sa <> [] /\
    (re_match MOBILE_UA_RE ua = None -> re_match DESKTOP_UA_RE ua = None ->
     sa = lit "Unknown").
Proof.
  apply (log_entry_invariants (lit "access.log") sample_file
           (fst (parse_log_file (lit "access.log") sample_file))
           (result [] (snd (parse_log_file (lit "access.log") sample_file)))).
  - vm_compute. reflexivity.
  - vm_compute. left. reflexivity.
Defined.


Example hour_23_bucket :
  keys (hits_per_time (result no_stats (count_entries no_stats [late_entry])))
  = [lit "23:00-24:00"].
Proof. vm_compute. reflexivity. Qed.

(** C8 on entries that arrive late hour first. *)
Lemma hour_buckets_sorted_for_display_witness :
  let data := [late_entry; early_entry; late_entry] in
  let st := result no_stats (count_entries no_stats data) in
  exists hours,
    keys (ints (sorted_hits_per_time st)) = map hour_label hours /\
    StronglySorted Z.lt hours /\
    Forall (fun h => (0 <= h <= 23)%Z) hours /\
    Permutation (sorted_hits_per_time st) (hits_per_time st) /\
    (forall out, get_stats data = (out, Ok tt) ->
       exists out1 out2,
         out = out1 ++ fst (Graph_display (ints (sorted_hits_per_time st))
                              (lit "Hits per time range") (lit "hits") true None)
                   ++ out2).
Proof.
  apply (hour_buckets_sorted_for_display [late_entry; early_entry; late_entry]).
  vm_compute. reflexivity.
Defined.

Example hour_buckets_in_order :
  let st := result no_stats (count_entries no_stats [late_entry; early_entry; late_entry]) in
  keys (hits_per_time st) = [lit "23:00-24:00"; lit "09:00-10:00"] /\
  keys (sorted_hits_per_time st) = [lit "09:00-10:00"; lit "23:00-24:00"].
Proof. split; vm_compute; reflexivity. Qed.

(** C9 on the sample request. *)
Lemma request_split_is_lossless_up_to_final_newline_witness :
  let request := sample_request in
  let mth := lit "GET" in
  let u := lit "/presentations/logstash.png" in
  let p := lit "HTTP/1.1" in
  let joined := mth ++ lit " " ++ u ++ lit " " ++ p in
  (request = joined \/ request = joined ++ [NEWLINE]) /\
  (~ In NEWLINE request -> request = joined) /\
  u <> [] /\ ~ In SPACE u /\
  mth <> [] /\ forallb is_upper mth = true /\
  ~ In NEWLINE p.
Proof.
  apply (request_split_is_lossless_up_to_final_newline
           sample_request (lit "GET") (lit "/presentations/logstash.png")
           (lit "HTTP/1.1")).
  vm_compute. reflexivity.
Defined.

(** C9 as stated fails: a request that ends in a newline is decomposed, and
    the three parts joined do not give the request back. *)
Lemma request_with_final_newline_is_not_restored :
  extract_method_and_url (sample_request ++ [NEWLINE])
    = (Some (lit "GET"), Some (lit "/presentations/logstash.png"),
       Some (lit "HTTP/1.1")) /\
  str_eqb (lit "GET" ++ lit " " ++ lit "/presentations/logstash.png" ++ lit " "
           ++ lit "HTTP/1.1")
          (sample_request ++ [NEWLINE]) = false.
Proof. split; vm_compute; reflexivity. Qed.

(** C10 on the sample line and its fields. *)
Lemma empty_quoted_fields_are_rejected_witness :
  let e := the late_entry (result None (snd (parse_line sample_line))) in
  (parse_line (log_line_text sample_ip sample_time [] (lit "200") (lit "203023")
                             sample_referrer sample_ua) =
     ([diagnostic (log_line_text sample_ip sample_time [] (lit "200") (lit "203023")
                                 sample_referrer sample_ua)], Ok None) /\
   parse_line (log_line_text sample_ip sample_time sample_request (lit "200")
                             (lit "203023") [] sample_ua) =
     ([diagnostic (log_line_text sample_ip sample_time sample_request (lit "200")
                                 (lit "203023") [] sample_ua)], Ok None) /\
   parse_line (log_line_text sample_ip sample_time sample_request (lit "200")
                             (lit "203023") sample_referrer []) =
     ([diagnostic (log_line_text sample_ip sample_time sample_request (lit "200")
                                 (lit "203023") sample_referrer [])], Ok None)) /\
  request e <> [] /\ referrer e <> [] /\ user_agent e <> [].
Proof.
  apply (empty_quoted_fields_are_rejected
           sample_ip sample_time sample_request (lit "200") (lit "203023")
           sample_referrer sample_ua sample_line
           (fst (parse_line sample_line))).
  - exact sample_fields_ok.
  - vm_compute. reflexivity.
Defined.

(** * More about generate_json.py *)

(** ** Which lines are accepted *)

Lemma LOG_LINE_PATTERN_den_intro_suffix n ip tm req status size ref ua s1 :
  fields_ok ip tm req status size ref ua ->
  den n LOG_LINE_PATTERN (log_line_text ip tm req status size ref ua ++ s1) [] s1
      (line_caps ip tm req status size ref ua).
Proof.
  intros (Hip & [Htm1 Htm2] & [Hreq1 Hreq2] & Hst & Hsz & [Href1 Href2] & [Hua1 Hua2]).
  unfold LOG_LINE_PATTERN. cbn [join_space].
  unfold log_line_text, quoted, line_caps. norm_app.
  eapply den_seq_intro; [apply den_REMOTE_HOSTNAME_intro; exact Hip|].
  eapply den_seq_intro; [apply den_chr_intro|].
  eapply den_seq_intro; [apply (den_group_intro n 2 _ [_]); apply accepts_chr|].
  eapply den_seq_intro; [apply den_chr_intro|].
  eapply den_seq_intro; [apply (den_group_intro n 3 _ [_]); apply accepts_chr|].
  eapply den_seq_intro; [apply den_chr_intro|].
  eapply den_seq_intro;
    [apply den_bracket_intro; apply accepts_plus_chr; assumption|].
  eapply den_seq_intro; [apply den_chr_intro|].
  eapply den_seq_intro;
    [apply den_bracket_intro; apply accepts_plus_chr; assumption|].
  eapply den_seq_intro; [apply den_chr_intro|].
  eapply den_seq_intro; [apply den_group_intro; apply accepts_digits1; exact Hst|].
  eapply den_seq_intro; [apply den_chr_intro|].
  eapply den_seq_intro.
  { apply den_group_intro. destruct Hsz as [Hsz| ->]; intros s c.
    - left. apply accepts_digits1. exact Hsz.
    - right. apply accepts_chr. }
  eapply den_seq_intro; [apply den_chr_intro|].
  eapply den_seq_intro;
    [apply den_bracket_intro; apply accepts_plus_chr; assumption|].
  eapply den_seq_intro; [apply den_chr_intro|].
  apply (den_bracket_intro n 9 DQUOTE _ DQUOTE ua s1).
  apply accepts_plus_chr; assumption.
Qed.

(** The captures of a search that succeeds are those of the line's fields. *)
Lemma re_search_REGEX_caps line mt :
  re_search REGEX line = Some mt ->
  exists ip tm req status size ref ua s1,
    fields_ok ip tm req status size ref ua /\
    line = log_line_text ip tm req status size ref ua ++ s1 /\
    (s1 = [] \/ s1 = [NEWLINE]) /\
    mt = line_caps ip tm req status size ref ua.
Proof.
  intros H. apply re_search_Bol_sound in H. destruct H as (s1 & D).
  apply REGEX_den in D.
  destruct D as (ip & tm & req & status & size & ref & ua & Hok & E & Hs1 & ->).
  exists ip, tm, req, status, size, ref, ua, s1. auto.
Qed.

Lemma re_search_REGEX_fields ip tm req status size ref ua s1 :
  fields_ok ip tm req status size ref ua -> s1 = [] \/ s1 = [NEWLINE] ->
  re_search REGEX (log_line_text ip tm req status size ref ua ++ s1)
  = Some (line_caps ip tm req status size ref ua).
Proof.
  intros Hok Hs1.
  set (line := log_line_text ip tm req status size ref ua ++ s1).
  assert (D : den (length line) REGEX line [] s1
                  (line_caps ip tm req status size ref ua)).
  { unfold REGEX.
    apply den_seq_intro with (s' := line) (c' := []); [simpl; auto|].
    apply den_seq_intro
      with (s' := s1) (c' := line_caps ip tm req status size ref ua);
      [|simpl; auto].
    apply LOG_LINE_PATTERN_den_intro_suffix. exact Hok. }
  apply re_search_complete in D.
  destruct (re_search REGEX line) as [mt|] eqn:E; [|congruence].
  apply re_search_REGEX_caps in E.
  destruct E as (ip' & tm' & req' & st' & sz' & ref' & ua' & s1' & Hok' & E & Hs1' & ->).
  destruct (fields_ok_sep_free _ _ _ _ _ _ _ Hok)
    as (Hip & Htm & Hreq & Hst & Hsz & Href & Hua).
  destruct (fields_ok_sep_free _ _ _ _ _ _ _ Hok')
    as (Hip' & Htm' & Hreq' & Hst' & Hsz' & Href' & Hua').
  unfold line in E. apply log_line_text_inj in E; try assumption.
  destruct E as (-> & -> & -> & -> & -> & -> & -> & _). reflexivity.
Qed.

(** X1.  The line pattern accepts exactly the texts made of nine well-formed
    fields with their separators, with or without one final newline. *)
Theorem accepted_lines line :
  matches_line line = true <->
  exists ip tm req status size ref ua,
    fields_ok ip tm req status size ref ua /\
    (line = log_line_text ip tm req status size ref ua \/
     line = log_line_text ip tm req status size ref ua ++ [NEWLINE]).
Proof.
  unfold matches_line. split.
  - destruct (re_search REGEX line) as [mt|] eqn:E; [|discriminate]. intros _.
    apply re_search_REGEX_caps in E.
    destruct E as (ip & tm & req & st & sz & ref & ua & s1 & Hok & E & Hs1 & _).
    exists ip, tm, req, st, sz, ref, ua. split; [exact Hok|].
    destruct Hs1 as [->| ->]; [left; rewrite app_nil_r in E|right]; exact E.
  - intros (ip & tm & req & st & sz & ref & ua & Hok & [->| ->]).
    + rewrite <- (app_nil_r (log_line_text _ _ _ _ _ _ _)).
      rewrite (re_search_REGEX_fields _ _ _ _ _ _ _ [] Hok); auto.
    + rewrite (re_search_REGEX_fields _ _ _ _ _ _ _ [NEWLINE] Hok); auto.
Qed.

(** X2.  A line of well-formed fields, with a status and a size that
    [int()] converts (at most 4300 digits each), becomes, without any ERROR
    record, the entry that holds those fields; the line can be written back
    from the entry and the two integer tokens; and one final newline on the
    line changes nothing. *)
Theorem parse_line_round_trip ip tm req status size ref ua :
  fields_ok ip tm req status size ref ua ->
  length status <= int_max_str_digits -> length size <= int_max_str_digits ->
  exists t e,
    parse_line (log_line_text ip tm req status size ref ua) = (t, Ok (Some e)) /\
    error_records t = [] /\
    remote_ip e = ip /\ log_name e = lit "-" /\ user e = lit "-" /\
    time e = tm /\ request e = req /\ referrer e = ref /\ user_agent e = ua /\
    parse_int status = Ok (response e) /\ parse_int size = Ok (bytes e) /\
    log_line_text (remote_ip e) (time e) (request e) status size
                  (referrer e) (user_agent e)
      = log_line_text ip tm req status size ref ua /\
    parse_line (log_line_text ip tm req status size ref ua ++ [NEWLINE])
      = (t, Ok (Some e)).
Proof.
  intros Hok Lst Lsz.
  pose proof (re_search_REGEX_fields _ _ _ _ _ _ _ [] Hok (or_introl eq_refl)) as E0.
  pose proof (re_search_REGEX_fields _ _ _ _ _ _ _ [NEWLINE] Hok
                (or_intror eq_refl)) as E1.
  rewrite app_nil_r in E0.
  assert (Same : parse_line (log_line_text ip tm req status size ref ua ++ [NEWLINE])
                 = parse_line (log_line_text ip tm req status size ref ua)).
  { unfold parse_line. rewrite E0, E1. reflexivity. }
  rewrite Same.
  pose proof E0 as E. apply parse_line_match_cases in E.
  destruct E as (ip' & tm' & req' & st' & sz' & ref' & ua' & s1 & Hok' & E & _ & _ & H).
  destruct (fields_ok_sep_free _ _ _ _ _ _ _ Hok)
    as (Hip & Htm & Hreq & Hst & Hsz & Href & Hua).
  destruct (fields_ok_sep_free _ _ _ _ _ _ _ Hok')
    as (Hip' & Htm' & Hreq' & Hst' & Hsz' & Href' & Hua').
  rewrite <- (app_nil_r (log_line_text ip tm req status size ref ua)) in E.
  apply log_line_text_inj in E; try assumption.
  destruct E as (<- & <- & <- & <- & <- & <- & <- & _).
  destruct H as [(_ & _ & t & e & H)|(K & _)]; [|lia].
  destruct H as (Hp & H1 & H2 & H3 & H4 & H5 & H6 & H7 & H8 & H9 & _ & _ & _ & Hua0).
  exists t, e. rewrite Hp, H1, H4, H5, H6, H7.
  repeat split; auto.
  pose proof (extract_client_information_quiet ua) as Q.
  rewrite Hua0 in Q. exact Q.
Qed.

Lemma parse_line_round_trip_witness :
  exists t e,
    parse_line sample_line = (t, Ok (Some e)) /\
    error_records t = [] /\
    remote_ip e = sample_ip /\ log_name e = lit "-" /\ user e = lit "-" /\
    time e = sample_time /\ request e = sample_request /\
    referrer e = sample_referrer /\ user_agent e = sample_ua /\
    parse_int (lit "200") = Ok (response e) /\
    parse_int (lit "203023") = Ok (bytes e) /\
    log_line_text (remote_ip e) (time e) (request e) (lit "200") (lit "203023")
                  (referrer e) (user_agent e)
      = sample_line /\
    parse_line (sample_line ++ [NEWLINE]) = (t, Ok (Some e)).
Proof.
  apply (parse_line_round_trip sample_ip sample_time sample_request (lit "200")
                               (lit "203023") sample_referrer sample_ua
                               sample_fields_ok);
    apply Nat.leb_le; vm_compute; reflexivity.
Defined.

(** ** Decomposing a request *)

Lemma forallb_not_In (q : ascii -> bool) x (a : str) :
  q x = false -> forallb q a = true -> ~ In x a.
Proof.
  intros Hx H Hin. rewrite forallb_forall in H. apply H in Hin. congruence.
Qed.

Lemma METHOD_REGEX_den_intro mth u p s1 :
  request_parts_ok mth u p -> s1 = [] \/ s1 = [NEWLINE] ->
  let request := join_request mth u p ++ s1 in
  den (length request) METHOD_REGEX request [] s1 [(3, p); (2, u); (1, mth)].
Proof.
  intros (Hm1 & Hm2 & Hu1 & Hu2 & Hp) Hs1 request.
  set (n := length request). unfold METHOD_REGEX. cbn [Seqs].
  apply den_seq_intro with (s' := request) (c' := []); [simpl; auto|].
  unfold request, join_request. norm_app.
  eapply den_seq_intro;
    [apply den_group_intro; apply accepts_plus_chr; assumption|].
  eapply den_seq_intro; [apply den_chr_intro|].
  eapply den_seq_intro.
  { apply den_group_intro. apply accepts_plus_chr; [assumption|].
    apply not_In_forallb_not_char. assumption. }
  eapply den_seq_intro; [apply den_chr_intro|].
  eapply den_seq_intro.
  { apply den_group_intro. intros s c. apply den_star_chr_intro.
    apply not_In_forallb_not_char. assumption. }
  simpl. auto.
Qed.

Lemma request_parts_unique mth u p s1 mth' u' p' s1' :
  ~ In SPACE mth -> ~ In SPACE mth' -> ~ In SPACE u -> ~ In SPACE u' ->
  ~ In NEWLINE p -> ~ In NEWLINE p' ->
  s1 = [] \/ s1 = [NEWLINE] -> s1' = [] \/ s1' = [NEWLINE] ->
  join_request mth u p ++ s1 = join_request mth' u' p' ++ s1' ->
  mth = mth' /\ u = u' /\ p = p' /\ s1 = s1'.
Proof.
  intros Hm Hm' Hu Hu' Hp Hp' Hs Hs' E.
  unfold join_request in E. norm_app_in E.
  apply split_first_unique in E; [|assumption..]. destruct E as [-> E].
  apply split_first_unique in E; [|assumption..]. destruct E as [-> E].
  destruct Hs as [->| ->], Hs' as [->| ->].
  - rewrite !app_nil_r in E. auto.
  - exfalso. apply Hp. rewrite app_nil_r in E. rewrite E.
    apply in_or_app. right. left. reflexivity.
  - exfalso. apply Hp'. rewrite app_nil_r in E. rewrite <- E.
    apply in_or_app. right. left. reflexivity.
  - apply app_inv_tail in E. auto.
Qed.

Lemma re_search_METHOD_REGEX request c :
  re_search METHOD_REGEX request = Some c ->
  exists mth u p s1,
    request_parts_ok mth u p /\ (s1 = [] \/ s1 = [NEWLINE]) /\
    request = join_request mth u p ++ s1 /\
    c = [(3, p); (2, u); (1, mth)].
Proof.
  intros E. unfold METHOD_REGEX in E. cbn [Seqs] in E.
  apply re_search_Bol_sound in E. destruct E as (s1 & D).
  apply (METHOD_REGEX_den _ _ _ _) in D.
  destruct D as (mth & u & p & E & Hs1 & Hm1 & Hm2 & [Hu1 Hu2] & Hp & ->).
  exists mth, u, p, s1. repeat split; auto.
  - apply forallb_not_char_In. assumption.
  - apply forallb_not_char_In. assumption.
  - rewrite E. unfold join_request. repeat rewrite <- app_assoc. reflexivity.
Qed.

(** X3.  Joining a method, a url and a protocol with single spaces and
    decomposing the result gives the three parts back; one final newline
    after the protocol is dropped. *)
Theorem join_then_decompose mth u p s1 :
  request_parts_ok mth u p -> s1 = [] \/ s1 = [NEWLINE] ->
  extract_method_and_url (join_request mth u p ++ s1) = (Some mth, Some u, Some p).
Proof.
  intros Hok Hs1. unfold extract_method_and_url.
  pose proof (METHOD_REGEX_den_intro mth u p s1 Hok Hs1) as D. cbv zeta in D.
  apply re_search_complete in D.
  destruct (re_search METHOD_REGEX _) as [c|] eqn:E; [|congruence].
  apply re_search_METHOD_REGEX in E.
  destruct E as (mth' & u' & p' & s1' & Hok' & Hs1' & E & ->).
  destruct Hok as (Hm1 & Hm2 & Hu1 & Hu2 & Hp).
  destruct Hok' as (Hm1' & Hm2' & Hu1' & Hu2' & Hp').
  apply request_parts_unique in E; try assumption;
    try (apply (forallb_not_In is_upper); [reflexivity|assumption]).
  destruct E as (-> & -> & -> & _). reflexivity.
Qed.

Lemma join_then_decompose_witness :
  extract_method_and_url
    (join_request (lit "GET") (lit "/presentations/logstash.png") (lit "HTTP/1.1")
     ++ [NEWLINE])
  = (Some (lit "GET"), Some (lit "/presentations/logstash.png"),
     Some (lit "HTTP/1.1")).
Proof.
  apply join_then_decompose.
  - repeat split; try discriminate.
    + intros [H|[H|H]]; [discriminate H..|].
      vm_compute in H. intuition discriminate.
    + vm_compute. intuition discriminate.
  - right. reflexivity.
Defined.

(** X4.  The decomposer gives all three parts or none.  It gives them
    exactly for the requests made of a method, a space, a url, a space and a
    protocol, with or without a final newline; every other request is left
    with the three parts absent. *)
Theorem request_parts_all_or_none request :
  (exists mth u p,
     extract_method_and_url request = (Some mth, Some u, Some p) /\
     request_parts_ok mth u p /\
     (request = join_request mth u p \/
      request = join_request mth u p ++ [NEWLINE]))
  \/
  (extract_method_and_url request = (None, None, None) /\
   forall mth u p, request_parts_ok mth u p ->
     request <> join_request mth u p /\
     request <> join_request mth u p ++ [NEWLINE]).
Proof.
  unfold extract_method_and_url.
  destruct (re_search METHOD_REGEX request) as [c|] eqn:E.
  - left. apply re_search_METHOD_REGEX in E.
    destruct E as (mth & u & p & s1 & Hok & Hs1 & E & ->).
    exists mth, u, p. split; [reflexivity|]. split; [exact Hok|].
    destruct Hs1 as [->| ->]; [left; rewrite app_nil_r in E|right]; exact E.
  - right. split; [reflexivity|]. intros mth u p Hok.
    assert (No : forall s1, s1 = [] \/ s1 = [NEWLINE] ->
                            request <> join_request mth u p ++ s1).
    { intros s1 Hs1 ->.
      pose proof (METHOD_REGEX_den_intro mth u p s1 Hok Hs1) as D. cbv zeta in D.
      apply re_search_complete in D. congruence. }
    split.
    + rewrite <- (app_nil_r (join_request mth u p)). apply No. auto.
    + apply No. auto.
Qed.

(** ** The label of a user agent *)

Lemma first_group_text r0 r ua c :
  consumes (length ua) r0 (fun a => forallb (not_char NEWLINE) a = true) ->
  re_match (Seq r0 (Group 1 r)) ua = Some c ->
  exists pre label post,
    ua = pre ++ label ++ post /\ ~ In NEWLINE pre /\ group 1 c = Some label.
Proof.
  intros H0 H. apply re_match_sound in H. destruct H as (s1 & s' & c' & D0 & DG).
  apply H0 in D0. destruct D0 as (pre & Hpre & -> & ->).
  apply den_group_text in DG. destruct DG as (a & c'' & -> & D & ->).
  exists pre, a, s1. repeat split.
  apply forallb_not_char_In. assumption.
Qed.

(** X5.  The classifier never raises.  Its label is either a piece of the
    user agent, found after a newline-free prefix by one of the two
    heuristics, and then nothing is logged; or it is ["Unknown"], neither
    heuristic matched, and one DEBUG record names the user agent. *)
Theorem client_label_comes_from_user_agent ua :
  exists t label,
    extract_client_information ua = (t, Ok (Some label)) /\
    ((t = [] /\ label <> [] /\
      (re_match MOBILE_UA_RE ua <> None \/ re_match DESKTOP_UA_RE ua <> None) /\
      exists pre post, ua = pre ++ label ++ post /\ ~ In NEWLINE pre)
     \/
     (label = lit "Unknown" /\
      re_match MOBILE_UA_RE ua = None /\ re_match DESKTOP_UA_RE ua = None /\
      t = [LogDebug (lit "OS could not be guessed for UA " ++ quoted ua)])).
Proof.
  unfold extract_client_information.
  destruct (re_match MOBILE_UA_RE ua) as [cm|] eqn:Em.
  - pose proof Em as Em'.
    apply first_group_nonempty in Em; [|reflexivity].
    apply first_group_text in Em'; [|apply consumes_star_chr].
    destruct Em as (a & Ea & Ha).
    destruct Em' as (pre & label & post & E & Hpre & El).
    rewrite Ea in *. injection El as <-.
    exists [], a. split; [reflexivity|]. left.
    repeat split; auto; [left; discriminate|eauto].
  - destruct (re_match DESKTOP_UA_RE ua) as [cd|] eqn:Ed.
    + pose proof Ed as Ed'.
      apply first_group_nonempty in Ed; [|reflexivity].
      apply first_group_text in Ed'; [|apply consumes_star_chr].
      destruct Ed as (a & Ea & Ha).
      destruct Ed' as (pre & label & post & E & Hpre & El).
      rewrite Ea in *. injection El as <-.
      exists [], a. split; [reflexivity|]. left.
      repeat split; auto; [right; discriminate|eauto].
    + eexists _, _. split; [reflexivity|]. right. auto.
Qed.

Lemma accepts_LitI n l : forall x,
  map lower x = map lower l -> accepts n (LitI l) x.
Proof.
  induction l as [|a l IH]; intros [|b x] E; try discriminate; intros s c.
  - simpl. auto.
  - simpl in E. injection E as Eb Ex. simpl.
    exists (x ++ s), c. split.
    + exists b. rewrite Eb, Ascii.eqb_refl. auto.
    + apply IH. assumption.
Qed.

(** X6.  The mobile heuristic ignores case and position: a user agent that
    has the letters of [iPad], in any case, after a prefix without newline is
    given a label by the mobile heuristic, and nothing is logged. *)
Theorem ipad_anywhere_is_mobile pre x post :
  ~ In NEWLINE pre -> map lower x = lit "ipad" ->
  exists cm label,
    re_match MOBILE_UA_RE (pre ++ x ++ post) = Some cm /\
    group 1 cm = Some label /\ label <> [] /\
    extract_client_information (pre ++ x ++ post) = ([], Ok (Some label)).
Proof.
  intros Hpre Hx.
  set (ua := pre ++ x ++ post).
  assert (D : den (length ua) MOBILE_UA_RE ua [] post [(1, x)]).
  { unfold MOBILE_UA_RE, ua.
    apply den_seq_intro with (s' := x ++ post) (c' := []).
    - apply den_star_chr_intro. apply not_In_forallb_not_char. assumption.
    - apply den_group_intro. intros s c. right. right.
      apply accepts_LitI. exact Hx. }
  assert (Hm : re_match MOBILE_UA_RE ua <> None).
  { unfold re_match. intros E.
    pose proof (m_complete _ _ _ _ _ _ _ _ E D) as Hk. discriminate. }
  destruct (re_match MOBILE_UA_RE ua) as [cm|] eqn:Em; [|congruence].
  pose proof Em as Em'. apply first_group_nonempty in Em'; [|reflexivity].
  destruct Em' as (label & El & Hl).
  exists cm, label. repeat split; auto.
  unfold extract_client_information. fold ua. rewrite Em, El. reflexivity.
Qed.

Lemma ipad_anywhere_is_mobile_witness :
  exists cm label,
    re_match MOBILE_UA_RE (lit "Mozilla/5.0 (" ++ lit "IPAD" ++ lit "; CPU OS 9_3)")
      = Some cm /\
    group 1 cm = Some label /\ label <> [] /\
    extract_client_information
      (lit "Mozilla/5.0 (" ++ lit "IPAD" ++ lit "; CPU OS 9_3)")
      = ([], Ok (Some label)).
Proof.
  apply ipad_anywhere_is_mobile.
  - vm_compute. intuition discriminate.
  - vm_compute. reflexivity.
Defined.

(** ** The file as a whole *)

Lemma lstrip_app_spaces ws s :
  forallb is_space ws = true -> lstrip (ws ++ s) = lstrip s.
Proof.
  induction ws as [|a ws IH]; intros H; [reflexivity|].
  simpl in H. apply andb_prop in H. destruct H as [Ha Hws].
  simpl. rewrite Ha. apply IH. assumption.
Qed.

Lemma rstrip_app_spaces s ws :
  forallb is_space ws = true -> rstrip (s ++ ws) = rstrip s.
Proof.
  intros H. unfold rstrip. rewrite rev_app_distr, lstrip_app_spaces; [reflexivity|].
  rewrite forallb_forall in *. intros x Hx. apply H. apply in_rev. assumption.
Qed.

Lemma lstrip_app_keep s t a s' :
  lstrip s = a :: s' -> lstrip (s ++ t) = a :: s' ++ t.
Proof.
  induction s as [|b s IH]; simpl; [discriminate|].
  destruct (is_space b); [exact IH|].
  intros H. injection H as <- <-. reflexivity.
Qed.

Lemma lstrip_all_spaces s : lstrip s = [] -> forallb is_space s = true.
Proof.
  induction s as [|b s IH]; simpl; [reflexivity|].
  destruct (is_space b); [exact IH|discriminate].
Qed.

(** Whitespace around a line is not part of it. *)
Lemma strip_padding ws1 s ws2 :
  forallb is_space ws1 = true -> forallb is_space ws2 = true ->
  strip (ws1 ++ s ++ ws2) = strip s.
Proof.
  intros H1 H2. unfold strip. rewrite lstrip_app_spaces by assumption.
  destruct (lstrip s) as [|a s'] eqn:E.
  - pose proof (lstrip_all_spaces _ E) as Hs.
    assert (Hall : forallb is_space (s ++ ws2) = true)
      by (rewrite forallb_app, Hs, H2; reflexivity).
    assert (L : lstrip (s ++ ws2) = []).
    { rewrite <- (app_nil_r (s ++ ws2)).
      rewrite lstrip_app_spaces by assumption. reflexivity. }
    rewrite L. reflexivity.
  - rewrite (lstrip_app_keep _ ws2 _ _ E).
    change (a :: s' ++ ws2) with ((a :: s') ++ ws2).
    apply rstrip_app_spaces. assumption.
Qed.

Lemma within_limit_app fh1 fh2 :
  within_limit (fh1 ++ fh2) = within_limit fh1 && within_limit fh2.
Proof. apply forallb_app. Qed.

(** X7.  When two sequences of lines are read one after the other and each
    alone gives a collection, the whole gives the entries of the first
    followed by the entries of the second, and so for the diagnostics; when
    one of them alone raises, so does the whole. *)
Theorem parse_log_file_app file_name fh1 fh2 :
  let run := parse_log_file file_name in
  (forall data1 data2,
     snd (run fh1) = Ok data1 -> snd (run fh2) = Ok data2 ->
     snd (run (fh1 ++ fh2)) = Ok (data1 ++ data2) /\
     error_records (fst (run (fh1 ++ fh2)))
       = error_records (fst (run fh1)) ++ error_records (fst (run fh2))) /\
  (forall y, snd (run fh1) = Raise y \/ snd (run fh2) = Raise y ->
             snd (run (fh1 ++ fh2)) = Raise ValueError).
Proof.
  intros run. subst run. split.
  - intros data1 data2 H1 H2.
    destruct (parse_log_file file_name fh1) as [log1 r1] eqn:E1.
    destruct (parse_log_file file_name fh2) as [log2 r2] eqn:E2.
    cbn [snd fst] in *. subst r1 r2.
    pose proof (parse_log_file_returns _ _ _ _ E1) as L1.
    pose proof (parse_log_file_returns _ _ _ _ E2) as L2.
    destruct (parse_log_file_data file_name fh1 L1) as (log1' & K1 & Q1).
    destruct (parse_log_file_data file_name fh2 L2) as (log2' & K2 & Q2).
    destruct (parse_log_file_data file_name (fh1 ++ fh2)) as (log & K & Q).
    { rewrite within_limit_app, L1, L2. reflexivity. }
    rewrite E1 in K1. rewrite E2 in K2.
    injection K1 as <- ->. injection K2 as <- ->.
    rewrite K. cbn [snd fst]. rewrite flat_map_app. split; [reflexivity|].
    rewrite Q, Q1, Q2, filter_app, map_app. reflexivity.
  - intros y Hy.
    destruct (parse_log_file_raises file_name (fh1 ++ fh2)) as (log & ->);
      [|reflexivity].
    rewrite within_limit_app.
    destruct (within_limit fh1) eqn:L1; [|reflexivity].
    destruct (within_limit fh2) eqn:L2; [|reflexivity].
    destruct (parse_log_file_data file_name fh1 L1) as (log1 & K1 & _).
    destruct (parse_log_file_data file_name fh2 L2) as (log2 & K2 & _).
    rewrite K1, K2 in Hy. destruct Hy; discriminate.
Qed.

(** X7 on the sample file followed by one more line. *)
Lemma parse_log_file_app_witness :
  let run := parse_log_file (lit "access.log") in
  snd (run (sample_file ++ [sample_line]))
    = Ok (result [] (snd (run sample_file)) ++ result [] (snd (run [sample_line]))) /\
  error_records (fst (run (sample_file ++ [sample_line])))
    = error_records (fst (run sample_file)) ++ error_records (fst (run [sample_line])).
Proof.
  apply (proj1 (parse_log_file_app (lit "access.log") sample_file [sample_line]));
    vm_compute; reflexivity.
Defined.

Lemma parse_lines_ignore_padding ws1 ws2 :
  forallb is_space ws1 = true -> forallb is_space ws2 = true ->
  forall fh data,
    parse_lines (map (fun line => ws1 ++ line ++ ws2) fh) data = parse_lines fh data.
Proof.
  intros H1 H2. induction fh as [|line fh IH]; intros data; [reflexivity|].
  cbn [map parse_lines]. rewrite strip_padding by assumption.
  destruct (parse_line (strip line)) as [t [r|y]]; [|reflexivity].
  unfold bind. rewrite IH. reflexivity.
Qed.

(** X8.  Whitespace before and after a line, its line terminator included,
    has no effect: padding every line of the input with whitespace leaves the
    collection of entries as it was. *)
Theorem parse_log_file_ignores_padding file_name fh ws1 ws2 :
  forallb is_space ws1 = true -> forallb is_space ws2 = true ->
  snd (parse_log_file file_name (map (fun line => ws1 ++ line ++ ws2) fh))
  = snd (parse_log_file file_name fh).
Proof.
  intros H1 H2. unfold parse_log_file.
  rewrite (parse_lines_ignore_padding _ _ H1 H2). reflexivity.
Qed.

Lemma parse_log_file_ignores_padding_witness :
  snd (parse_log_file (lit "access.log")
         (map (fun line => lit "  " ++ line ++ [" "%char; NEWLINE]) sample_file))
  = snd (parse_log_file (lit "access.log") sample_file).
Proof.
  apply parse_log_file_ignores_padding; vm_compute; reflexivity.
Defined.

(** * More about display_stats.py *)

(** ** What the mappings hold *)

Section UpdateFacts.
Context {K V : Type} `{Key K}.
Hypothesis key_eqb_eq : forall a b : K, key_eqb a b = true <-> a = b.

Lemma key_eqb_refl (k : K) : key_eqb k k = true.
Proof. apply key_eqb_eq. reflexivity. Qed.

Lemma keys_dict_update (dflt : V) f k (d : dict K V) x :
  In x (keys (dict_update dflt f k d)) <-> x = k \/ In x (keys d).
Proof.
  induction d as [|[k' v] d IH]; simpl.
  - intuition.
  - destruct (key_eqb k k') eqn:E; simpl.
    + apply key_eqb_eq in E. subst k'. intuition.
    + rewrite IH. intuition.
Qed.

Lemma dict_update_NoDup (dflt : V) f k (d : dict K V) :
  NoDup (keys d) -> NoDup (keys (dict_update dflt f k d)).
Proof.
  induction d as [|[k' v] d IH]; intros Hd.
  - repeat constructor. intros [].
  - simpl. inversion Hd as [|? ? Hn Hd']; subst.
    destruct (key_eqb k k') eqn:E; simpl.
    + assumption.
    + constructor; [|apply IH; assumption].
      intros Hin. apply keys_dict_update in Hin. destruct Hin as [->|Hin].
      * rewrite key_eqb_refl in E. discriminate.
      * contradiction.
Qed.

Lemma dict_get_update (dflt : V) f k k' (d : dict K V) :
  dict_get dflt k (dict_update dflt f k' d) =
  if key_eqb k k' then f (dict_get dflt k d) else dict_get dflt k d.
Proof.
  induction d as [|[k0 v] d IH]; simpl.
  - destruct (key_eqb k k'); reflexivity.
  - destruct (key_eqb k' k0) eqn:E0; simpl.
    + apply key_eqb_eq in E0. subst k0.
      destruct (key_eqb k k'); reflexivity.
    + destruct (key_eqb k k0) eqn:E1.
      * apply key_eqb_eq in E1. subst k0.
        destruct (key_eqb k k') eqn:E2; [|reflexivity].
        apply key_eqb_eq in E2. subst k'. rewrite key_eqb_refl in E0. discriminate.
      * exact IH.
Qed.

End UpdateFacts.

Lemma Z_key_eqb_eq (a b : Z) : key_eqb a b = true <-> a = b.
Proof. apply Z.eqb_eq. Qed.

Lemma count_where_cons {A} (f : A -> bool) x l :
  count_where f (x :: l) = ((if f x then 1 else 0) + count_where f l)%Z.
Proof.
  unfold count_where. simpl. destruct (f x); simpl length; lia.
Qed.

Lemma hour_label_inj h1 h2 :
  (0 <= h1 <= 23)%Z -> (0 <= h2 <= 23)%Z ->
  hour_label h1 = hour_label h2 -> h1 = h2.
Proof.
  intros R1 R2 E. apply (f_equal label_hour) in E.
  rewrite !label_hour_label in E by assumption. exact E.
Qed.

(** The mappings after the loop, from the mappings before it. *)
Lemma count_entries_gets : forall data st0 st,
  count_entries st0 data = Ok st ->
  (forall u, dict_get 0%Z u (hits_per_page st) =
             (dict_get 0%Z u (hits_per_page st0)
              + count_where (fun e => key_eqb u (url e)) data)%Z) /\
  (forall r, dict_get 0%Z r (hits_per_response st) =
             (dict_get 0%Z r (hits_per_response st0)
              + count_where (fun e => key_eqb r (response e)) data)%Z) /\
  (forall o, dict_get 0%Z o (hits_per_os st) =
             (dict_get 0%Z o (hits_per_os st0)
              + count_where (fun e => key_eqb o (system_agent e)) data)%Z) /\
  (forall h, (0 <= h <= 23)%Z ->
             dict_get 0%Z (hour_label h) (hits_per_time st) =
             (dict_get 0%Z (hour_label h) (hits_per_time st0)
              + count_where (at_hour h) data)%Z) /\
  (NoDup (keys (hits_per_page st0)) -> NoDup (keys (hits_per_page st))) /\
  (NoDup (keys (bytes_per_ip st0)) -> NoDup (keys (bytes_per_ip st))) /\
  (forall u, In u (keys (hits_per_page st)) <->
             In u (keys (hits_per_page st0)) \/ In u (map url data)) /\
  (forall ip, In ip (keys (bytes_per_ip st)) <->
              In ip (keys (bytes_per_ip st0)) \/ In ip (map remote_ip data)).
Proof.
  induction data as [|e data IH]; intros st0 st H; simpl in H.
  - injection H as <-. unfold count_where. simpl.
    repeat split; intros; try lia; intuition.
  - destruct (count_entry st0 e) as [st1|] eqn:E1; simpl in H; [|discriminate].
    apply count_entry_ok in E1.
    destruct E1 as (tm & Etm & Ep & Er & Eo & Et & Eb).
    apply IH in H.
    destruct H as (Gp & Gr & Go & Gt & Np & Nb & Kp & Kb).
    pose proof (strptime_hour _ _ Etm) as Hh.
    repeat split.
    + intros u. rewrite Gp, Ep, count_where_cons. unfold incr.
      rewrite (dict_get_update opt_str_eqb_eq).
      destruct (key_eqb u (url e)); lia.
    + intros r. rewrite Gr, Er, count_where_cons. unfold incr.
      rewrite (dict_get_update Z_key_eqb_eq).
      destruct (key_eqb r (response e)); lia.
    + intros o. rewrite Go, Eo, count_where_cons. unfold incr.
      rewrite (dict_get_update opt_str_eqb_eq).
      destruct (key_eqb o (system_agent e)); lia.
    + intros h Rh. rewrite (Gt h Rh), Et, count_where_cons. unfold incr.
      rewrite (dict_get_update str_key_eqb_eq).
      rewrite (time_bucket_label _ Hh). unfold at_hour. rewrite Etm.
      destruct (key_eqb (hour_label h) (hour_label (hour tm))) eqn:Ek.
      * apply str_key_eqb_eq in Ek. apply hour_label_inj in Ek; try assumption.
        subst h. rewrite Z.eqb_refl. lia.
      * destruct (hour tm =? h)%Z eqn:Eh; [|lia].
        apply Z.eqb_eq in Eh. subst h.
        rewrite (proj2 (str_key_eqb_eq _ _) eq_refl) in Ek. discriminate.
    + intros Hd. apply Np. rewrite Ep. unfold incr.
      apply (dict_update_NoDup opt_str_eqb_eq). assumption.
    + intros Hd. apply Nb.
      assert (Hnd : NoDup (keys (dict_update 0%float (fun v : float => v)
                                             (remote_ip e) (bytes_per_ip st0))))
        by (apply (dict_update_NoDup str_key_eqb_eq); assumption).
      rewrite <- Eb in Hnd. exact Hnd.
    + intros Hu. apply Kp in Hu. rewrite Ep in Hu. unfold incr in Hu.
      rewrite (keys_dict_update opt_str_eqb_eq) in Hu. simpl. intuition.
    + intros Hu. apply Kp. rewrite Ep. unfold incr.
      rewrite (keys_dict_update opt_str_eqb_eq). simpl in Hu. intuition.
    + intros Hi. apply Kb in Hi. rewrite Eb in Hi.
      rewrite (keys_dict_update str_key_eqb_eq) in Hi. simpl. intuition.
    + intros Hi. apply Kb. rewrite Eb.
      rewrite (keys_dict_update str_key_eqb_eq). simpl in Hi. intuition.
Qed.

(** X9.  When the loop completes, each mapping of hits holds, under every
    key, the number of entries that have that key: the url (or its absence),
    the status, the label of the operating system, and the hour of the parsed
    time under the hour's label; a key without entry reads as 0. *)
Theorem hits_are_counts_of_entries data st :
  count_entries no_stats data = Ok st ->
  (forall u, dict_get 0%Z u (hits_per_page st)
             = count_where (fun e => key_eqb u (url e)) data) /\
  (forall r, dict_get 0%Z r (hits_per_response st)
             = count_where (fun e => (r =? response e)%Z) data) /\
  (forall o, dict_get 0%Z o (hits_per_os st)
             = count_where (fun e => key_eqb o (system_agent e)) data) /\
  (forall h, (0 <= h <= 23)%Z ->
             dict_get 0%Z (hour_label h) (hits_per_time st)
             = count_where (at_hour h) data).
Proof.
  intros H. apply count_entries_gets in H.
  destruct H as (Gp & Gr & Go & Gt & _).
  repeat split; intros.
  - rewrite Gp. reflexivity.
  - rewrite Gr. reflexivity.
  - rewrite Go. reflexivity.
  - rewrite Gt by assumption. reflexivity.
Qed.

Lemma hits_are_counts_of_entries_witness :
  let data := [late_entry; early_entry; late_entry] in
  let st := result no_stats (count_entries no_stats data) in
  (forall u, dict_get 0%Z u (hits_per_page st)
             = count_where (fun e => key_eqb u (url e)) data) /\
  (forall r, dict_get 0%Z r (hits_per_response st)
             = count_where (fun e => (r =? response e)%Z) data) /\
  (forall o, dict_get 0%Z o (hits_per_os st)
             = count_where (fun e => key_eqb o (system_agent e)) data) /\
  (forall h, (0 <= h <= 23)%Z ->
             dict_get 0%Z (hour_label h) (hits_per_time st)
             = count_where (at_hour h) data).
Proof.
  apply (hits_are_counts_of_entries [late_entry; early_entry; late_entry]).
  vm_compute. reflexivity.
Defined.

(** ** The totals *)

Lemma emit_inv ev t (a : unit) : emit ev = (t, Ok a) -> t = [ev].
Proof. unfold emit. intros H. injection H as <-. reflexivity. Qed.

Lemma same_elements_same_length {A} (l l' : list A) :
  NoDup l -> NoDup l' -> (forall x, In x l <-> In x l') -> length l = length l'.
Proof.
  intros H1 H2 H. apply Permutation_length. apply NoDup_Permutation; assumption.
Qed.

(** X10.  A run that completes ends with the totals: the number of
    entries, the traffic, the number of distinct remote addresses and the
    number of distinct urls (the absent url counts as one). *)
Theorem totals_of_a_run data out :
  get_stats data = (out, Ok tt) ->
  exists pre traffic,
    out = pre ++ [Header (lit "Stats");
                  TotalHits (length data);
                  TotalTraffic traffic;
                  DifferentVisitors (length (nodup str_dec (map remote_ip data)));
                  DifferentURLs (length (nodup opt_str_dec (map url data)))].
Proof.
  unfold get_stats. intros Hout.
  apply bind_Ok_inv in Hout. destruct Hout as (t0 & st & r0 & Hst & Hout & ->).
  apply lift_Ok_inv in Hst. destruct Hst as [Hst ->].
  apply count_entries_gets in Hst.
  destruct Hst as (_ & _ & _ & _ & Np & Nb & Kp & Kb).
  specialize (Np (NoDup_nil _)). specialize (Nb (NoDup_nil _)).
  apply bind_Ok_inv in Hout. destruct Hout as (t1 & [] & r1 & _ & Hout & ->).
  apply bind_Ok_inv in Hout. destruct Hout as (t2 & [] & r2 & _ & Hout & ->).
  apply bind_Ok_inv in Hout. destruct Hout as (t3 & [] & r3 & _ & Hout & ->).
  apply bind_Ok_inv in Hout. destruct Hout as (t4 & [] & r4 & _ & Hout & ->).
  cbv zeta in Hout.
  apply bind_Ok_inv in Hout. destruct Hout as (t5 & [] & r5 & _ & Hout & ->).
  apply bind_Ok_inv in Hout. destruct Hout as (t6 & [] & r6 & H6 & Hout & ->).
  apply emit_inv in H6. subst t6.
  apply bind_Ok_inv in Hout. destruct Hout as (t7 & [] & r7 & H7 & Hout & ->).
  apply emit_inv in H7. subst t7.
  apply bind_Ok_inv in Hout. destruct Hout as (t8 & total & r8 & H8 & Hout & ->).
  apply lift_Ok_inv in H8. destruct H8 as [_ ->].
  apply bind_Ok_inv in Hout. destruct Hout as (t9 & traffic & r9 & H9 & Hout & ->).
  apply lift_Ok_inv in H9. destruct H9 as [_ ->].
  apply bind_Ok_inv in Hout. destruct Hout as (t10 & [] & r10 & H10 & Hout & ->).
  apply emit_inv in H10. subst t10.
  apply bind_Ok_inv in Hout. destruct Hout as (t11 & [] & r11 & H11 & Hout & ->).
  apply emit_inv in H11. subst t11.
  apply emit_inv in Hout. subst r11.
  exists (t1 ++ t2 ++ t3 ++ t4 ++ t5), traffic.
  cbn [app]. repeat rewrite <- app_assoc. cbn [app].
  rewrite (same_elements_same_length (keys (bytes_per_ip st))
             (nodup str_dec (map remote_ip data))).
  - rewrite (same_elements_same_length (keys (hits_per_page st))
               (nodup opt_str_dec (map url data))).
    + reflexivity.
    + assumption.
    + apply NoDup_nodup.
    + intros u. rewrite Kp, nodup_In. simpl. intuition.
  - assumption.
  - apply NoDup_nodup.
  - intros ip. rewrite Kb, nodup_In. simpl. intuition.
Qed.

Lemma totals_of_a_run_witness :
  let data := [late_entry; early_entry; late_entry] in
  exists pre traffic,
    fst (get_stats data)
    = pre ++ [Header (lit "Stats");
              TotalHits (length data);
              TotalTraffic traffic;
              DifferentVisitors (length (nodup str_dec (map remote_ip data)));
              DifferentURLs (length (nodup opt_str_dec (map url data)))].
Proof.
  apply (totals_of_a_run [late_entry; early_entry; late_entry]).
  vm_compute. reflexivity.
Defined.

(** ** The ranked list *)











(** ** The bar graph: what it cannot draw *)


(** ** Decoding what [str] writes *)

Lemma digit_char_digit d :
  d < 10 -> is_digit (digit_char d) = true /\ digit_val (digit_char d) = Z.of_nat d.
Proof.
  intros Hd. do 10 (destruct d as [|d]; [split; reflexivity|]). lia.
Qed.

Lemma int_digits_horner : forall ds a b,
  forallb is_digit ds = true -> ds <> [] \/ b = true ->
  int_digits a b ds = Some (fold_left (fun x c => (x * 10 + digit_val c)%Z) ds a).
Proof.
  induction ds as [|c ds IH]; intros a b H Hne; simpl.
  - destruct Hne as [Hne| ->]; [congruence|reflexivity].
  - simpl in H. apply andb_prop in H. destruct H as [Hc Hds]. rewrite Hc.
    apply IH; auto.
Qed.

Lemma nat_digits_spec : forall fuel n acc,
  n < fuel ->
  exists ds,
    nat_digits fuel n acc = ds ++ acc /\ ds <> [] /\ forallb is_digit ds = true /\
    forall a, fold_left (fun x c => (x * 10 + digit_val c)%Z) ds a
              = (a * 10 ^ Z.of_nat (length ds) + Z.of_nat n)%Z.
Proof.
  induction fuel as [|f IH]; intros n acc Hn; [lia|].
  assert (Hr : n mod 10 < 10) by (apply Nat.mod_upper_bound; lia).
  destruct (digit_char_digit _ Hr) as [Hd Hv].
  pose proof (Nat.div_mod_eq n 10) as Hdm.
  cbn [nat_digits]. destruct (n / 10 =? 0) eqn:E.
  - apply Nat.eqb_eq in E. exists [digit_char (n mod 10)].
    repeat split; try discriminate.
    + cbn [forallb]. rewrite Hd. reflexivity.
    + intros a. cbn [fold_left length]. rewrite Hv. lia.
  - apply Nat.eqb_neq in E.
    destruct (IH (n / 10) (digit_char (n mod 10) :: acc)) as (ds & E1 & Hne & Hall & Hf).
    { lia. }
    exists (ds ++ [digit_char (n mod 10)]). repeat split.
    + rewrite E1, <- app_assoc. reflexivity.
    + destruct ds; discriminate.
    + rewrite forallb_app, Hall. cbn [forallb andb]. rewrite Hd. reflexivity.
    + intros a. rewrite fold_left_app, Hf. cbn [fold_left]. rewrite Hv.
      rewrite length_app. cbn [length]. rewrite Nat.add_1_r, Nat2Z.inj_succ.
      rewrite Z.pow_succ_r by lia. lia.
Qed.

Lemma int_strip_sign_digits ds :
  ds <> [] -> forallb is_digit ds = true ->
  int_strip ("-"%char :: ds) = "-"%char :: ds.
Proof.
  intros Hne H. unfold int_strip.
  assert (E0 : int_lstrip ("-"%char :: ds) = "-"%char :: ds) by reflexivity.
  rewrite E0. simpl rev.
  destruct (rev ds) as [|b r] eqn:E.
  - apply (f_equal (@rev ascii)) in E. rewrite rev_involutive in E.
    simpl in E. congruence.
  - assert (Hb : is_digit b = true).
    { rewrite forallb_forall in H. apply H. apply in_rev. rewrite E. left.
      reflexivity. }
    cbn [app int_lstrip]. rewrite (digit_not_int_space b Hb).
    change (b :: r ++ ["-"%char]) with ((b :: r) ++ ["-"%char]).
    rewrite <- E, rev_app_distr, rev_involutive. reflexivity.
Qed.

(** A number below [10 ^ k] has at most [k] digits, and one from [10 ^ k]
    on has more. *)
Lemma nat_digits_length_le : forall fuel n acc k,
  n < fuel -> 1 <= k -> (Z.of_nat n < 10 ^ Z.of_nat k)%Z ->
  length (nat_digits fuel n acc) <= k + length acc.
Proof.
  induction fuel as [|f IH]; intros n acc k Hn Hk Hlt; [lia|].
  pose proof (Nat.div_mod_eq n 10) as Hdm.
  assert (Hr : n mod 10 < 10) by (apply Nat.mod_upper_bound; lia).
  cbn [nat_digits]. destruct (n / 10 =? 0) eqn:E.
  - cbn [length]. lia.
  - apply Nat.eqb_neq in E.
    destruct k as [|k]; [lia|].
    rewrite Nat2Z.inj_succ, Z.pow_succ_r in Hlt by lia.
    destruct k as [|k].
    + change (10 ^ Z.of_nat 0)%Z with 1%Z in Hlt. lia.
    + assert (Hd : (Z.of_nat (n / 10) < 10 ^ Z.of_nat (S k))%Z).
      { rewrite Nat2Z.inj_div. apply Z.div_lt_upper_bound; [lia|exact Hlt]. }
      assert (Hf : n / 10 < f) by lia.
      specialize (IH (n / 10) (digit_char (n mod 10) :: acc) (S k) Hf
                     ltac:(lia) Hd).
      cbn [length] in IH. lia.
Qed.

Lemma nat_digits_length_ge : forall fuel n acc k,
  n < fuel -> (10 ^ Z.of_nat k <= Z.of_nat n)%Z ->
  S k + length acc <= length (nat_digits fuel n acc).
Proof.
  induction fuel as [|f IH]; intros n acc k Hn Hge; [lia|].
  pose proof (Nat.div_mod_eq n 10) as Hdm.
  assert (Hr : n mod 10 < 10) by (apply Nat.mod_upper_bound; lia).
  cbn [nat_digits]. destruct (n / 10 =? 0) eqn:E.
  - apply Nat.eqb_eq in E. destruct k as [|k]; [cbn [length]; lia|].
    exfalso. rewrite Nat2Z.inj_succ, Z.pow_succ_r in Hge by lia.
    assert (0 < 10 ^ Z.of_nat k)%Z by (apply Z.pow_pos_nonneg; lia).
    lia.
  - apply Nat.eqb_neq in E.
    assert (Hf : n / 10 < f) by lia.
    destruct k as [|k].
    + specialize (IH (n / 10) (digit_char (n mod 10) :: acc) 0 Hf).
      change (10 ^ Z.of_nat 0)%Z with 1%Z in IH.
      cbn [length] in IH. lia.
    + rewrite Nat2Z.inj_succ, Z.pow_succ_r in Hge by lia.
      assert (Hd : (10 ^ Z.of_nat k <= Z.of_nat (n / 10))%Z).
      { rewrite Nat2Z.inj_div. apply Z.div_le_lower_bound; [lia|exact Hge]. }
      specialize (IH (n / 10) (digit_char (n mod 10) :: acc) k Hf Hd).
      cbn [length] in IH. lia.
Qed.

Lemma count_digits_str_of_Z z :
  count_digits (str_of_Z z)
  = length (nat_digits (S (Z.abs_nat z)) (Z.abs_nat z) []).
Proof.
  unfold str_of_Z.
  destruct (nat_digits_spec (S (Z.abs_nat z)) (Z.abs_nat z) [])
    as (ds & E & _ & Hall & _); [lia|].
  rewrite app_nil_r in E. rewrite E.
  destruct (z <? 0)%Z; [|apply count_digits_digits; exact Hall].
  unfold count_digits. cbn [filter].
  change (is_digit "-"%char) with false. cbv iota.
  apply (count_digits_digits _ Hall).
Qed.

(** X14.  [str] writes an integer exactly when it is below [10 ^ 4300] in
    absolute value, and decoding the text it writes gives the integer back;
    only the bare [-] is read as 0. *)
Theorem parse_int_of_str z :
  ((Z.abs z < 10 ^ Z.of_nat int_max_str_digits)%Z ->
   py_str z = Ok (str_of_Z z) /\ parse_int (str_of_Z z) = Ok z) /\
  ((10 ^ Z.of_nat int_max_str_digits <= Z.abs z)%Z ->
   py_str z = Raise ValueError).
Proof.
  assert (Habs : Z.of_nat (Z.abs_nat z) = Z.abs z) by lia.
  split; intros Hz; rewrite <- Habs in Hz.
  - pose proof (nat_digits_length_le (S (Z.abs_nat z)) (Z.abs_nat z) []
                  int_max_str_digits ltac:(lia)
                  ltac:(unfold int_max_str_digits; lia) Hz) as Hlen.
    cbn [length] in Hlen. rewrite Nat.add_0_r in Hlen.
    assert (Hc : (int_max_str_digits <? count_digits (str_of_Z z)) = false).
    { apply Nat.ltb_ge. rewrite count_digits_str_of_Z. exact Hlen. }
    split; [unfold py_str; rewrite Hc; reflexivity|].
    unfold str_of_Z.
    destruct (nat_digits_spec (S (Z.abs_nat z)) (Z.abs_nat z) [])
      as (ds & E & Hne & Hall & Hf); [lia|].
    rewrite app_nil_r in E. rewrite E in Hlen |- *.
    pose proof (int_digits_horner ds 0%Z false Hall (or_introl Hne)) as Hi.
    rewrite Hf in Hi.
    assert (Hl : (int_max_str_digits <? count_digits ds) = false).
    { apply Nat.ltb_ge. rewrite (count_digits_digits _ Hall). exact Hlen. }
    destruct ds as [|c ds']; [congruence|].
    pose proof Hall as Hd. simpl in Hd. apply andb_prop in Hd. destruct Hd as [Hd _].
    destruct (z <? 0)%Z eqn:Ez.
    + apply Z.ltb_lt in Ez. unfold parse_int.
      assert (Eq : str_eqb ("-"%char :: c :: ds') (lit "-") = false).
      { destruct (str_eqb _ _) eqn:Ee; [|reflexivity].
        apply str_eqb_eq in Ee. discriminate. }
      rewrite Eq. unfold py_int.
      rewrite int_strip_sign_digits by (try discriminate; assumption).
      cbn [split_sign]. rewrite Hi, Hl. f_equal. lia.
    + apply Z.ltb_ge in Ez. unfold parse_int.
      assert (Eq : str_eqb (c :: ds') (lit "-") = false).
      { destruct (str_eqb _ _) eqn:Ee; [|reflexivity].
        apply str_eqb_eq in Ee. injection Ee as -> _. discriminate. }
      rewrite Eq. unfold py_int. rewrite (int_strip_digits _ Hall).
      rewrite (split_sign_digit _ _ Hd), Hi, Hl. f_equal. lia.
  - pose proof (nat_digits_length_ge (S (Z.abs_nat z)) (Z.abs_nat z) []
                  int_max_str_digits ltac:(lia) Hz) as Hlen.
    cbn [length] in Hlen. rewrite Nat.add_0_r in Hlen.
    unfold py_str. rewrite count_digits_str_of_Z.
    assert (Hc : (int_max_str_digits
                  <? length (nat_digits (S (Z.abs_nat z)) (Z.abs_nat z) [])) = true)
      by (apply Nat.ltb_lt; lia).
    rewrite Hc. reflexivity.
Qed.

(** X14 on a negative size. *)
Lemma parse_int_of_str_witness :
  py_str (-203023) = Ok (lit "-203023") /\ parse_int (lit "-203023") = Ok (-203023)%Z.
Proof.
  apply (proj1 (parse_int_of_str (-203023))). vm_compute. reflexivity.
Defined.
